(** * Checkout pipeline: plan selection, simulated payment, document upload

    A shallow embedding of the three stateful React components that carry
    the logic of the checkout flow, and the properties the specification
    states about them.

    - [PlanSelection]        src/src/pages/PlanSelection.tsx
    - [PaymentModal]         src/src/components/payment/PaymentModal.tsx
    - [DocumentVerification] the verification page (handleImageUpload,
                             handleContinue)

    Conventions of the embedding.
    - A JavaScript [number] is an IEEE-754 double.  [Binary64] holds
      [calculatePrice] over doubles, with the product rounded as the
      machine rounds it.  [PlanSelection] works with exact rationals
      ([Q]), which is what the doubles compute as long as the product
      is representable (see [exact_product_agrees]).
    - A JavaScript string is a [string] holding its UTF-8 encoding;
      [===] is equality of the encodings and [.length], the number of
      UTF-16 code units, is [PaymentModal.length16].
    - [useState] cells are record fields; an event handler is a function
      from the state before to the state after; calls that leave the
      component (toast, navigate, props callbacks, storage) are recorded
      in order in a trace of effects.
    - [localStorage] is a finite map from keys to strings. *)

From Stdlib Require Import QArith Qround Qpower Lqa SpecFloat.
From stdpp Require Import gmap strings list pretty.

Local Open Scope string_scope.
Local Open Scope list_scope.

(** ** Plan selection *)

Module PlanSelection.

(** Modelled from the spec: the row type of [subscription_plans]
    ([Database] in [@/integrations/supabase/types]) is not among the
    sources; the spec gives a plan an identifier, a name and an integer
    base price.  Only the fields the page reads are kept. *)
Record Plan := mkPlan {
  plan_id : string;
  plan_name : string;
  plan_price : Z
}.

Record DurationOption := mkDuration {
  label : string;
  multiplier : Q
}.

(** The object literal [durationOptions]; the order of the entries is
    the order in which [Object.entries] yields them. *)
Definition durationOptions : list (string * DurationOption) :=
  [ ("1dia",   mkDuration "1 dia"   (1 # 2));
    ("3dias",  mkDuration "3 dias"  1);
    ("15dias", mkDuration "15 dias" (5 # 2));
    ("1mes",   mkDuration "1 mês"   (7 # 2));
    ("3meses", mkDuration "3 meses" 8) ].

(** [obj[key]]: the value under [key], or [undefined]. *)
Fixpoint property {A} (key : string) (obj : list (string * A)) : option A :=
  match obj with
  | [] => None
  | (k, v) :: rest => if String.eqb k key then Some v else property key rest
  end.

Definition keys {A} (obj : list (string * A)) : list string := map fst obj.

(** [getAvailableDurations] *)
Definition getAvailableDurations (plan : Plan) : list (string * DurationOption) :=
  if (plan_price plan =? 0)%Z
  then match property "1dia" durationOptions with
       | Some d => [("1dia", d)]
       | None => []
       end
  else durationOptions.

(** [Math.round]: the nearest integer, a tie going to the larger one. *)
Definition Math_round (x : Q) : Z := Qfloor (x + (1 # 2)).

(** [calculatePrice] read over exact rationals: the product is exact
    and only [Math.round] rounds.  [Binary64.calculatePrice] below is
    the same body over doubles; the two agree wherever the product of
    the doubles is exact ([exact_product_agrees]). *)
Definition calculatePrice (basePrice durationMultiplier : Q) : Q :=
  if Qeq_bool basePrice 0 then 0
  else inject_Z (Math_round (basePrice * durationMultiplier)).

(** What "round half up" means, stated apart from [Math_round]: [n] is
    the integer with [n - 1/2 <= x < n + 1/2]. *)
Definition round_half_up (x : Q) (n : Z) : Prop :=
  (inject_Z n - (1 # 2) <= x)%Q /\ (x < inject_Z n + (1 # 2))%Q.

(** *** Component state *)

(** The two [useState] cells and the value of [useRealTimeUpdates]. *)
Record State := mkState {
  plans : list Plan;
  selectedPlan : option string;
  selectedDuration : string
}.

Definition initial : State :=
  {| plans := []; selectedPlan := None; selectedDuration := "3dias" |}.

Definition setSelectedPlan (v : string) (st : State) : State :=
  {| plans := plans st; selectedPlan := Some v;
     selectedDuration := selectedDuration st |}.

Definition setSelectedDuration (v : string) (st : State) : State :=
  {| plans := plans st; selectedPlan := selectedPlan st;
     selectedDuration := v |}.

Definition setPlans (ps : list Plan) (st : State) : State :=
  {| plans := ps; selectedPlan := selectedPlan st;
     selectedDuration := selectedDuration st |}.

(** Truthiness of a [string | null]: [null] and the empty string are
    falsy. *)
Definition truthy (v : option string) : bool :=
  match v with
  | Some s => negb (String.eqb s "")
  | None => false
  end.

(** [plans.find(p => p.id === id)] *)
Definition findPlan (ps : list Plan) (id : string) : option Plan :=
  List.find (fun p => String.eqb (plan_id p) id) ps.

(** The plan the selection refers to: the one [find] returns for a
    truthy [selectedPlan]. *)
Definition currentPlan (st : State) : option Plan :=
  match selectedPlan st with
  | Some id => if truthy (Some id) then findPlan (plans st) id else None
  | None => None
  end.

(** The invariant of the selection: a free current plan pins the
    duration to the shortest option. *)
Definition freePinned (st : State) : Prop :=
  forall p, currentPlan st = Some p -> plan_price p = 0%Z ->
            selectedDuration st = "1dia".

(** *** Effects

    Each [useEffect] body reads the values of the render it belongs to
    ([snap]) and queues state updates, which are applied to [st]. *)

(** First effect: default to the first plan of the catalog. *)
Definition effectDefaultPlan (snap st : State) : State :=
  match plans snap with
  | first :: _ =>
      if negb (truthy (selectedPlan snap))
      then setSelectedPlan (plan_id first) st
      else st
  | [] => st
  end.

(** Second effect: a free plan forces the duration to ["1dia"]. *)
Definition effectFreeDuration (snap st : State) : State :=
  match currentPlan snap with
  | Some plan =>
      if (plan_price plan =? 0)%Z
         && negb (String.eqb (selectedDuration snap) "1dia")
      then setSelectedDuration "1dia" st
      else st
  | None => st
  end.

(** One pass of both effects after a render. *)
Definition runEffects (snap : State) : State :=
  effectFreeDuration snap (effectDefaultPlan snap snap).

Definition sameSelectedPlan (a b : State) : bool :=
  bool_decide (selectedPlan a = selectedPlan b).

(** After an event that changed a dependency ([plans] or
    [selectedPlan]) both effects run; they run once more if the first
    pass changed [selectedPlan].  A pass that changes only
    [selectedDuration] triggers nothing: it is in neither dependency
    list.  [settle_stable] shows no third pass is due. *)
Definition settle (st : State) : State :=
  let st1 := runEffects st in
  if sameSelectedPlan st st1 then st1 else runEffects st1.

(** *** Events *)

(** Modelled from the spec: the hook [useRealTimeUpdates] is not among
    the sources; per the spec its value is empty until the first
    snapshot arrives and is replaced wholesale on every change
    notification.  [CatalogUpdate] is one such replacement. *)
Inductive Event :=
| CatalogUpdate (ps : list Plan)   (* the subscription delivers a snapshot *)
| ClickPlan (id : string)          (* onClick of a plan card *)
| ChooseDuration (d : string).     (* onValueChange of the radio group *)

(** The radio items rendered: for every plan whose id is the selected
    one, the entries of [getAvailableDurations]; nothing without a
    selection. *)
Definition offeredDurations (st : State) : list string :=
  match selectedPlan st with
  | Some id =>
      if truthy (Some id)
      then concat (map (fun plan =>
                          if String.eqb (plan_id plan) id
                          then keys (getAvailableDurations plan)
                          else [])
                       (plans st))
      else []
  | None => []
  end.

(** What the page lets happen: the catalog identifies plans (ids are
    pairwise distinct), only rendered cards can be clicked and only
    rendered radio items chosen. *)
Definition enabled (e : Event) (st : State) : Prop :=
  match e with
  | CatalogUpdate ps => NoDup (map plan_id ps)
  | ClickPlan id => In id (map plan_id (plans st))
  | ChooseDuration d => In d (offeredDurations st)
  end.

Definition step (e : Event) (st : State) : State :=
  match e with
  | CatalogUpdate ps => settle (setPlans ps st)
  | ClickPlan id =>
      if bool_decide (selectedPlan st = Some id) then st
      else settle (setSelectedPlan id st)
  | ChooseDuration d => setSelectedDuration d st
  end.

Inductive reachable : State -> Prop :=
| reachable_initial : reachable initial
| reachable_step e st :
    reachable st -> enabled e st -> reachable (step e st).

(** What holds of every state the page can be in. *)
Definition invariant (st : State) : Prop :=
  NoDup (map plan_id (plans st))
  /\ In (selectedDuration st) (keys durationOptions)
  /\ freePinned st.

(** *** Continue *)

Inductive Effect :=
| Toast (title description : string)
| Navigate (path : string).

Inductive Completion := Returned | ThrewTypeError.

(** The text of [${plan?.name}]. *)
Definition planNameText (plan : option Plan) : string :=
  match plan with
  | Some p => plan_name p
  | None => "undefined"
  end.

(** [handleContinue], over [localStorage].  Reading [.label] of an
    unknown duration throws after the two writes. *)
Definition handleContinue (st : State) (localStorage : gmap string string)
  : gmap string string * list Effect * Completion :=
  match selectedPlan st with
  | Some id =>
      if truthy (Some id) then
        let ls1 := <["selectedPlan" := id]> localStorage in
        let ls2 := <["selectedDuration" := selectedDuration st]> ls1 in
        let plan := findPlan (plans st) id in
        match property (selectedDuration st) durationOptions with
        | Some d =>
            (ls2,
             [ Toast "Plano selecionado"
                     (planNameText plan ++ " por " ++ label d);
               Navigate "/verificacao" ],
             Returned)
        | None => (ls2, [], ThrewTypeError)
        end
      else (localStorage, [], Returned)
  | None => (localStorage, [], Returned)
  end.

(** The amount of the summary panel, [calculatePrice(plan.price,
    durationOptions[selectedDuration].multiplier)], for the selected
    plan. *)
Definition payableAmount (st : State) : option Q :=
  match currentPlan st, property (selectedDuration st) durationOptions with
  | Some plan, Some d =>
      Some (calculatePrice (inject_Z (plan_price plan)) (multiplier d))
  | _, _ => None
  end.

(** *** Sample data *)

Definition rubi : Plan := mkPlan "p-rubi" "Rubi" 100.
Definition gratis : Plan := mkPlan "p-free" "Gratuito" 0.

(** The catalog arrives, the buyer picks three months for the paid plan
    that was selected by default, then clicks the free plan. *)
Definition paidThreeMonths : State :=
  step (ChooseDuration "3meses") (step (CatalogUpdate [rubi; gratis]) initial).

Definition freeClicked : State := step (ClickPlan "p-free") paidThreeMonths.

(** The buyer's plan disappears from the catalog: the first snapshot
    holds only the paid plan, the next one only the free plan. *)
Definition staleSelection : State :=
  step (CatalogUpdate [gratis]) (step (CatalogUpdate [rubi]) initial).

(** *** Buyers who leave the duration alone *)

Definition isDurationChoice (e : Event) : bool :=
  match e with ChooseDuration _ => true | _ => false end.

(** States reached without ever using the duration radio group: only
    catalog snapshots and clicks on plan cards. *)
Inductive durationUntouched : State -> Prop :=
| untouched_initial : durationUntouched initial
| untouched_step e st :
    durationUntouched st -> enabled e st -> isDurationChoice e = false ->
    durationUntouched (step e st).

(** The same, and moreover no free plan has ever been the current plan,
    neither through a click nor through a change of the catalog. *)
Inductive neverFree : State -> Prop :=
| neverFree_initial : neverFree initial
| neverFree_step e st :
    neverFree st -> enabled e st -> isDurationChoice e = false ->
    (forall p, currentPlan (step e st) = Some p -> plan_price p <> 0%Z) ->
    neverFree (step e st).

(** The catalog arrives with the paid plan first; the buyer looks at
    the free plan and returns to the paid one. *)
Definition noDurationTouch : State :=
  step (ClickPlan "p-rubi")
    (step (ClickPlan "p-free")
       (step (CatalogUpdate [rubi; gratis]) initial)).

End PlanSelection.

(** ** Prices as the machine computes them *)

Module Binary64.

(** A JavaScript number: an IEEE-754 double, in the Standard Library's
    specification of binary floating point ([prec] bits of mantissa,
    infinities at exponent [emax]). *)
Definition number : Type := spec_float.

Definition prec : Z := 53.
Definition emax : Z := 1024.

(** The double nearest to [m * 2^e]: how a numeric literal or a stored
    number is read.  [literal 5 (-1)] is [2.5]. *)
Definition literal (m e : Z) : number := binary_normalize prec emax m e false.

Definition ofZ (n : Z) : number := literal n 0.

(** [x * y]: the exact product rounded to the nearest double, ties to
    even. *)
Definition mul (x y : number) : number := SFmul prec emax x y.

(** [x === 0]: true of both zeros, false of [NaN]. *)
Definition isZero (x : number) : bool := SFeqb x (S754_zero false).

(** The rational a double stands for; none for [NaN] and the
    infinities. *)
Definition value (x : number) : option Q :=
  match x with
  | S754_zero _ => Some 0%Q
  | S754_finite s m e => Some (inject_Z (cond_Zopp s (Zpos m)) * 2 ^ e)%Q
  | S754_infinity _ | S754_nan => None
  end.

(** What [Math.round] can return: an integer, the negative zero, [NaN]
    or an infinity. *)
Inductive Rounded :=
| Integer (n : Z)
| NegativeZero
| NotANumber
| Infinite (negative : bool).

Definition intValue (r : Rounded) : option Z :=
  match r with
  | Integer n => Some n
  | NegativeZero => Some 0%Z
  | NotANumber | Infinite _ => None
  end.

(** [Math.round]: the integer nearest to [x], a tie going to the larger
    one; [-0] for [x] in [[-0.5, 0)] and for [-0]; [NaN] and the
    infinities are returned as they are. *)
Definition Math_round (x : number) : Rounded :=
  match x with
  | S754_zero s => if s then NegativeZero else Integer 0
  | S754_infinity s => Infinite s
  | S754_nan => NotANumber
  | S754_finite s m e =>
      let n := Qfloor (inject_Z (cond_Zopp s (Zpos m)) * 2 ^ e + (1 # 2)) in
      if (n =? 0)%Z && s then NegativeZero else Integer n
  end.

(** [calculatePrice] *)
Definition calculatePrice (basePrice durationMultiplier : number) : Rounded :=
  if isZero basePrice then Integer 0
  else Math_round (mul basePrice durationMultiplier).

(** *** Sample data *)

Definition twoAndAHalf : number := literal 5 (-1).
Definition oneHalf : number := literal 1 (-1).

(** An integer price near [2^50.7]: five halves of it need 54 bits. *)
Definition hugePrice : Z := 1801439850948201.

End Binary64.

(** ** Payment dialog *)

Module PaymentModal.

Record CardDetails := mkCard {
  number : string;
  name : string;
  expiry : string;
  cvc : string
}.

(** The three [useState] cells. *)
Record State := mkState {
  paymentMethod : string;
  cardDetails : CardDetails;
  isProcessing : bool
}.

Definition initial : State :=
  {| paymentMethod := "credit_card";
     cardDetails := mkCard "" "" "" "";
     isProcessing := false |}.

Definition setIsProcessing (b : bool) (st : State) : State :=
  {| paymentMethod := paymentMethod st;
     cardDetails := cardDetails st;
     isProcessing := b |}.

Definition setPaymentMethod (v : string) (st : State) : State :=
  {| paymentMethod := v;
     cardDetails := cardDetails st;
     isProcessing := isProcessing st |}.

(** [handleInputChange]: [{ ...prev, [name]: value }] for the [name] of
    one of the four inputs. *)
Definition handleInputChange (field value : string) (st : State) : State :=
  let c := cardDetails st in
  let c' :=
    if String.eqb field "number" then mkCard value (name c) (expiry c) (cvc c)
    else if String.eqb field "name" then mkCard (number c) value (expiry c) (cvc c)
    else if String.eqb field "expiry" then mkCard (number c) (name c) value (cvc c)
    else if String.eqb field "cvc" then mkCard (number c) (name c) (expiry c) value
    else c in
  {| paymentMethod := paymentMethod st;
     cardDetails := c';
     isProcessing := isProcessing st |}.

Inductive Effect :=
| Toast (title description : string) (destructive : bool)
| OnPaymentComplete          (* the [onPaymentComplete] prop *)
| OnClose.                   (* the [onClose] prop *)

#[global] Instance Effect_eq_dec : EqDecision Effect.
Proof. solve_decision. Defined.

(** The only closure ever handed to [setTimeout]. *)
Inductive Callback := Settlement.

Record Timer := mkTimer {
  due : nat;                 (* milliseconds on the clock *)
  callback : Callback
}.

(** The component together with what surrounds it: the clock and the
    timer queue of the event loop, the [open] prop owned by the hosting
    page, and the trace of calls made so far.  The hosting page is not
    among the sources; its [onClose] handler is taken to close the
    dialog. *)
Record World := mkWorld {
  ui : State;
  now : nat;
  timers : list Timer;
  dialogOpen : bool;
  trace : list Effect
}.

Definition start : World :=
  {| ui := initial; now := 0; timers := []; dialogOpen := true; trace := [] |}.

Definition emit (e : Effect) (w : World) : World :=
  {| ui := ui w; now := now w; timers := timers w;
     dialogOpen := dialogOpen w; trace := trace w ++ [e] |}.

Definition withUi (f : State -> State) (w : World) : World :=
  {| ui := f (ui w); now := now w; timers := timers w;
     dialogOpen := dialogOpen w; trace := trace w |}.

Definition setTimeout (cb : Callback) (delay : nat) (w : World) : World :=
  {| ui := ui w; now := now w;
     timers := timers w ++ [mkTimer (now w + delay) cb];
     dialogOpen := dialogOpen w; trace := trace w |}.

(** Calling the [onClose] prop. *)
Definition onClose (w : World) : World :=
  let w' := emit OnClose w in
  {| ui := ui w'; now := now w'; timers := timers w';
     dialogOpen := false; trace := trace w' |}.

Definition incompleteToast : Effect :=
  Toast "Informações incompletas"
        "Por favor, preencha todos os dados do cartão." true.

Definition approvedToast : Effect :=
  Toast "Pagamento aprovado!"
        "Seu anúncio está sendo processado e em breve estará disponível."
        false.

(** The UTF-16 code units that start at a byte of a UTF-8 string: one
    for the first byte of a code point of the basic plane (one, two or
    three bytes long), two for the first byte of a four-byte code point
    (a surrogate pair), none for a continuation byte. *)
Definition unitsAt (byte : Ascii.ascii) : nat :=
  let b := Ascii.nat_of_ascii byte in
  if (b <? 128)%nat then 1
  else if (b <? 192)%nat then 0
  else if (b <? 240)%nat then 1
  else 2.

(** [s.length]: the number of UTF-16 code units of [s]. *)
Fixpoint length16 (s : string) : nat :=
  match s with
  | EmptyString => 0
  | String byte rest => unitsAt byte + length16 rest
  end.

(** The condition of the validation [if]. *)
Definition cardRejected (c : CardDetails) : bool :=
  (length16 (number c) <? 16)%nat
  || String.eqb (name c) ""
  || (length16 (expiry c) <? 5)%nat
  || (length16 (cvc c) <? 3)%nat.

Definition simulatedDelay : nat := 2000.

(** The body of the closure passed to [setTimeout]. *)
Definition run (cb : Callback) (w : World) : World :=
  match cb with
  | Settlement =>
      onClose (emit OnPaymentComplete
                 (emit approvedToast (withUi (setIsProcessing false) w)))
  end.

(** [handleSubmit] *)
Definition handleSubmit (w : World) : World :=
  if String.eqb (paymentMethod (ui w)) "credit_card"
     && cardRejected (cardDetails (ui w))
  then emit incompleteToast w
  else setTimeout Settlement simulatedDelay
         (withUi (setIsProcessing true) w).

(** The user dismisses the dialog: [onOpenChange] is [onClose]. *)
Definition dismiss (w : World) : World := onClose w.

Definition isDue (t : nat) (tm : Timer) : bool := (due tm <=? t)%nat.

(** Time passes: every timer that has become due runs, in the order it
    was queued.  The callbacks queue no timers themselves. *)
Definition advance (dt : nat) (w : World) : World :=
  let t := now w + dt in
  let ready := filter (fun tm => isDue t tm = true) (timers w) in
  let later := filter (fun tm => isDue t tm = false) (timers w) in
  fold_left (fun acc tm => run (callback tm) acc) ready
    {| ui := ui w; now := t; timers := later;
       dialogOpen := dialogOpen w; trace := trace w |}.

(** *** What can happen to the dialog *)

Inductive Event :=
| TypeField (field value : string)   (* onChange of a card input *)
| ChooseMethod (method : string)     (* onValueChange of the radio group *)
| Submit                             (* onClick of the pay button *)
| Dismiss                            (* the user closes the dialog *)
| Reopen                             (* the hosting page shows it again *)
| Elapse (dt : nat).                 (* time passes *)

Definition reopen (w : World) : World :=
  {| ui := ui w; now := now w; timers := timers w;
     dialogOpen := true; trace := trace w |}.

(** The form can only be used while the dialog is shown, and the pay
    button is disabled while [isProcessing]. *)
Definition enabled (e : Event) (w : World) : Prop :=
  match e with
  | TypeField _ _ | ChooseMethod _ | Dismiss => dialogOpen w = true
  | Submit => dialogOpen w = true /\ isProcessing (ui w) = false
  | Reopen | Elapse _ => True
  end.

Definition step (e : Event) (w : World) : World :=
  match e with
  | TypeField field value => withUi (handleInputChange field value) w
  | ChooseMethod method => withUi (setPaymentMethod method) w
  | Submit => handleSubmit w
  | Dismiss => dismiss w
  | Reopen => reopen w
  | Elapse dt => advance dt w
  end.

Inductive reachable : World -> Prop :=
| reachable_start : reachable start
| reachable_step e w : reachable w -> enabled e w -> reachable (step e w).

(** A settlement is pending exactly while [isProcessing] is set. *)
Definition pendingMatchesFlag (w : World) : Prop :=
  if isProcessing (ui w)
  then exists d, timers w = [mkTimer d Settlement]
  else timers w = [].

(** How often the completion callback has been invoked. *)
Definition completions (w : World) : nat :=
  length (filter (fun e => e = OnPaymentComplete) (trace w)).

(** The conditions the validation asks of a card. *)
Definition cardAccepted (c : CardDetails) : Prop :=
  (16 <= length16 (number c))%nat
  /\ name c <> ""
  /\ (5 <= length16 (expiry c))%nat
  /\ (3 <= length16 (cvc c))%nat.

(** Input that gets past the validation: any method but the card, or
    a card that meets the four conditions. *)
Definition validInput (st : State) : Prop :=
  paymentMethod st <> "credit_card" \/ cardAccepted (cardDetails st).

(** *** Sample data *)

Definition sampleCard : CardDetails :=
  mkCard "4111111111111111" "A" "12/30" "123".

Definition shortCard : CardDetails := mkCard "123" "A" "12/30" "123".

(** The buyer fills in the four inputs. *)
Definition typeCard (c : CardDetails) (w : World) : World :=
  step (TypeField "cvc" (cvc c))
    (step (TypeField "expiry" (expiry c))
       (step (TypeField "name" (name c))
          (step (TypeField "number" (number c)) w))).

Definition cardWorld : World := typeCard sampleCard start.
Definition shortCardWorld : World := typeCard shortCard start.
Definition pixWorld : World := step (ChooseMethod "pix") start.

(** *** Runs of the dialog *)

(** A pending settlement is due within the simulated delay. *)
Definition pendingDueSoon (w : World) : Prop :=
  forall tm, In tm (timers w) -> (due tm <= now w + simulatedDelay)%nat.

Definition isSubmit (e : Event) : bool :=
  match e with Submit => true | _ => false end.

(** How often the pay button was pressed in a run. *)
Definition submits (es : list Event) : nat :=
  length (List.filter isSubmit es).

(** A world together with the events that led to it. *)
Inductive history : list Event -> World -> Prop :=
| history_start : history [] start
| history_step es e w :
    history es w -> enabled e w -> history (es ++ [e]) (step e w).

(** A card payment submitted from the filled-in form. *)
Definition cardSubmitted : World := step Submit cardWorld.

(** What the input named [field] shows: [value={cardDetails.number}] and
    its three siblings. *)
Definition inputValue (field : string) (c : CardDetails) : string :=
  if String.eqb field "number" then number c
  else if String.eqb field "name" then name c
  else if String.eqb field "expiry" then expiry c
  else if String.eqb field "cvc" then cvc c
  else "".

End PaymentModal.


(** ** Identity-document upload *)

Module DocumentVerification.

(** A selected file: opaque to the page, which only passes it on. *)
Record File := mkFile {
  file_name : string;
  file_bytes : list Byte.byte
}.

Record DocumentImage := mkImage {
  img_id : string;
  title : string;
  instruction : string;
  file : option File;
  preview : string
}.

(** The initial value of the [documentImages] cell. *)
Definition initialImages : list DocumentImage :=
  [ mkImage "front" "Frente do Documento"
      "Envie uma foto clara da frente do seu documento de identidade (RG ou CNH)"
      None "/placeholder.svg";
    mkImage "back" "Verso do Documento"
      "Envie uma foto clara do verso do seu documento de identidade"
      None "/placeholder.svg";
    mkImage "selfie" "Selfie com Documento"
      "Envie uma selfie segurando o documento ao lado do rosto"
      None "/placeholder.svg" ].

(** The three slots with the given bound files and previews. *)
Definition slots (f1 : option File) (p1 : string) (f2 : option File)
    (p2 : string) (f3 : option File) (p3 : string) : list DocumentImage :=
  [ mkImage "front" "Frente do Documento"
      "Envie uma foto clara da frente do seu documento de identidade (RG ou CNH)"
      f1 p1;
    mkImage "back" "Verso do Documento"
      "Envie uma foto clara do verso do seu documento de identidade"
      f2 p2;
    mkImage "selfie" "Selfie com Documento"
      "Envie uma selfie segurando o documento ao lado do rosto"
      f3 p3 ].

(** [handleImageUpload] with the [onload] callback of its reader:
    [files] is [e.target.files], [result] the data URL the reader
    delivers.  Nothing about the file is checked. *)
Definition handleImageUpload (files : list File) (imageId : string)
    (result : string) (prev : list DocumentImage) : list DocumentImage :=
  match files with
  | f :: _ =>
      if negb (String.eqb result "")
      then map (fun img =>
                  if String.eqb (img_id img) imageId
                  then mkImage (img_id img) (title img) (instruction img)
                               (Some f) result
                  else img)
               prev
      else prev
  | [] => prev
  end.

(** The values [documentImages] can take. *)
Inductive reachableImages : list DocumentImage -> Prop :=
| images_initial : reachableImages initialImages
| images_upload files imageId result prev :
    reachableImages prev ->
    reachableImages (handleImageUpload files imageId result prev).

(** [documentImages.find(img => img.id === id)?.file] *)
Definition fileOf (id : string) (images : list DocumentImage) : option File :=
  match List.find (fun img => String.eqb (img_id img) id) images with
  | Some img => file img
  | None => None
  end.

(** [documentImages.every(img => img.file)] *)
Definition allUploaded (images : list DocumentImage) : bool :=
  forallb (fun img => bool_decide (is_Some (file img))) images.

Definition boundSlots (images : list DocumentImage) : nat :=
  length (filter (fun img => is_Some (file img)) images).

Record User := mkUser { user_id : string }.

(** The object handed to [insert]. *)
Record Row := mkRow {
  row_user_id : string;
  document_front_url : string;
  document_back_url : string;
  document_selfie_url : string;
  status : string
}.

(** What a [throw] carries: an [Error] built by the page, or the error
    object of the failed insert. *)
Inductive Exn :=
| Error (message : string)
| InsertError (message : string).

Inductive Effect :=
| Toast (title description : string) (destructive : bool)
| Navigate (path : string)
| ConsoleError (text : string) (e : Exn)
| StorageUpload (bucket path : string) (f : File)
| StorageGetPublicUrl (bucket path : string)
| TableInsert (table : string) (row : Row).

#[global] Instance byte_eq_dec : EqDecision Byte.byte := Byte.byte_eq_dec.
#[global] Instance File_eq_dec : EqDecision File.
Proof. solve_decision. Defined.
#[global] Instance Row_eq_dec : EqDecision Row.
Proof. solve_decision. Defined.
#[global] Instance Exn_eq_dec : EqDecision Exn.
Proof. solve_decision. Defined.
#[global] Instance Effect_eq_dec : EqDecision Effect.
Proof. solve_decision. Defined.

(** Modelled from the spec: the storage and records client ([supabase])
    and the clock are outside the sources.  Per the external interfaces,
    an upload answers with a path or an error, an insert with ok or an
    error, and [getPublicUrl] maps a path to an address.  The answers of
    one run are fixed here: the [k]-th reading of the clock, whether the
    [k]-th upload call of the run answers with an error, and the answer
    to the insert. *)
Record Env := mkEnv {
  date_now : nat -> N;
  upload_error : nat -> bool;
  insert_error : option string;
  publicUrl : string -> string
}.

(** The component's [isUploading] cell and everything outside it that
    the handler touches. *)
Record World := mkWorld {
  isUploading : bool;
  bucket : list (string * File);       (* objects in 'verifications' *)
  table : list Row;                    (* rows of 'verification_documents' *)
  clockReads : nat;
  uploadCalls : nat;
  trace : list Effect
}.

Definition start : World :=
  {| isUploading := false; bucket := []; table := [];
     clockReads := 0; uploadCalls := 0; trace := [] |}.

(** *** Computations that touch the world and may throw *)

Definition M (A : Type) : Type := World -> (Exn + A) * World.

#[global] Instance M_ret : MRet M := fun A a w => (inr a, w).
#[global] Instance M_bind : MBind M := fun A B f c w =>
  match c w with
  | (inr a, w') => f a w'
  | (inl e, w') => (inl e, w')
  end.

Definition throw {A} (e : Exn) : M A := fun w => (inl e, w).

(** [try { body } catch (error) { handler(error) }] *)
Definition tryCatch (body : M unit) (handler : Exn -> M unit) : M unit :=
  fun w =>
    match body w with
    | (inl e, w') => handler e w'
    | ok => ok
    end.

(** [... finally { cleanup }], for a cleanup that does not throw. *)
Definition finally (body : M unit) (cleanup : World -> World) : M unit :=
  fun w => let '(r, w') := body w in (r, cleanup w').

Definition emit (e : Effect) : M unit := fun w =>
  (inr tt,
   {| isUploading := isUploading w; bucket := bucket w; table := table w;
      clockReads := clockReads w; uploadCalls := uploadCalls w;
      trace := trace w ++ [e] |}).

Definition setIsUploading (b : bool) (w : World) : World :=
  {| isUploading := b; bucket := bucket w; table := table w;
     clockReads := clockReads w; uploadCalls := uploadCalls w;
     trace := trace w |}.

(** [Date.now()] *)
Definition Date_now (env : Env) : M N := fun w =>
  (inr (date_now env (clockReads w)),
   {| isUploading := isUploading w; bucket := bucket w; table := table w;
      clockReads := S (clockReads w); uploadCalls := uploadCalls w;
      trace := trace w |}).

(** [supabase.storage.from('verifications').upload(path, f)]; the
    answer is [true] when it carries an [error]. *)
Definition upload (env : Env) (path : string) (f : File) : M bool := fun w =>
  let failed := upload_error env (uploadCalls w) in
  (inr failed,
   {| isUploading := isUploading w;
      bucket := if failed then bucket w else bucket w ++ [(path, f)];
      table := table w;
      clockReads := clockReads w; uploadCalls := S (uploadCalls w);
      trace := trace w ++ [StorageUpload "verifications" path f] |}).

(** [supabase.storage.from('verifications').getPublicUrl(path).data.publicUrl] *)
Definition getPublicUrl (env : Env) (path : string) : M string := fun w =>
  (inr (publicUrl env path),
   {| isUploading := isUploading w; bucket := bucket w; table := table w;
      clockReads := clockReads w; uploadCalls := uploadCalls w;
      trace := trace w ++ [StorageGetPublicUrl "verifications" path] |}).

(** [supabase.from('verification_documents').insert(row)]; the answer
    is the [error] field. *)
Definition insert (env : Env) (row : Row) : M (option string) := fun w =>
  (inr (insert_error env),
   {| isUploading := isUploading w; bucket := bucket w;
      table := match insert_error env with
               | None => table w ++ [row]
               | Some _ => table w
               end;
      clockReads := clockReads w; uploadCalls := uploadCalls w;
      trace := trace w ++ [TableInsert "verification_documents" row] |}).

(** *** The submit handler *)

(** The template literal [`verification/${user.id}/${slot}_${Date.now()}`]. *)
Definition objectPath (u : User) (slot : string) (t : N) : string :=
  "verification/" ++ user_id u ++ "/" ++ slot ++ "_" ++ pretty t.

Definition loginToast : Effect :=
  Toast "Você precisa estar logado"
        "Por favor, faça login para enviar seus documentos." true.

Definition incompleteToast : Effect :=
  Toast "Documentos incompletos"
        "Por favor, envie todos os documentos solicitados para continuar."
        true.

Definition sentToast : Effect :=
  Toast "Documentos enviados"
        "Seus documentos foram enviados com sucesso e serão analisados em breve."
        false.

Definition failureToast : Effect :=
  Toast "Erro ao enviar documentos"
        "Ocorreu um erro ao enviar seus documentos. Por favor, tente novamente."
        true.

Definition filesMissing : Exn := Error "Files missing".
Definition uploadFailed : Exn := Error "Error uploading files".

(** The body of the [try] block. *)
Definition tryBlock (env : Env) (u : User) (images : list DocumentImage)
    : M unit :=
  t1 ← Date_now env;
  let frontPath := objectPath u "front" t1 in
  t2 ← Date_now env;
  let backPath := objectPath u "back" t2 in
  t3 ← Date_now env;
  let selfiePath := objectPath u "selfie" t3 in
  match fileOf "front" images, fileOf "back" images,
        fileOf "selfie" images with
  | Some frontFile, Some backFile, Some selfieFile =>
      frontUpload ← upload env frontPath frontFile;
      backUpload ← upload env backPath backFile;
      selfieUpload ← upload env selfiePath selfieFile;
      if frontUpload || backUpload || selfieUpload
      then throw uploadFailed
      else
        frontUrl ← getPublicUrl env frontPath;
        backUrl ← getPublicUrl env backPath;
        selfieUrl ← getPublicUrl env selfiePath;
        error ← insert env
                  {| row_user_id := user_id u;
                     document_front_url := frontUrl;
                     document_back_url := backUrl;
                     document_selfie_url := selfieUrl;
                     status := "pending" |};
        match error with
        | Some message => throw (InsertError message)
        | None =>
            emit sentToast;;
            emit (Navigate "/dashboard")
        end
  | _, _, _ => throw filesMissing
  end.

(** The [catch] block. *)
Definition catchBlock (error : Exn) : M unit :=
  emit (ConsoleError "Error uploading documents:" error);;
  emit failureToast.

(** [handleContinue] of the verification page, for the value of [user]
    that [useAuth] gives. *)
Definition handleContinue (env : Env) (user : option User)
    (documentImages : list DocumentImage) (w : World) : World :=
  match user with
  | None =>
      snd ((emit loginToast;; emit (Navigate "/auth")) w)
  | Some u =>
      if negb (allUploaded documentImages)
      then snd (emit incompleteToast w)
      else
        snd (finally (tryCatch (tryBlock env u documentImages) catchBlock)
                     (setIsUploading false)
                     (setIsUploading true w))
  end.

(** *** Reading a trace *)

Definition isUploadCall (e : Effect) : bool :=
  match e with StorageUpload _ _ _ => true | _ => false end.

Definition isInsertCall (e : Effect) : bool :=
  match e with TableInsert _ _ => true | _ => false end.

Definition isStorageCall (e : Effect) : bool :=
  match e with
  | StorageUpload _ _ _ | StorageGetPublicUrl _ _ | TableInsert _ _ => true
  | _ => false
  end.

Definition uploadsIssued (w : World) : list Effect :=
  List.filter isUploadCall (trace w).

Definition insertsIssued (w : World) : list Effect :=
  List.filter isInsertCall (trace w).

Definition storageCalls (w : World) : list Effect :=
  List.filter isStorageCall (trace w).

(** *** The answers a run started in [w] will receive *)

Definition frontFails (env : Env) (w : World) : bool :=
  upload_error env (uploadCalls w).
Definition backFails (env : Env) (w : World) : bool :=
  upload_error env (S (uploadCalls w)).
Definition selfieFails (env : Env) (w : World) : bool :=
  upload_error env (S (S (uploadCalls w))).

Definition frontPath (env : Env) (u : User) (w : World) : string :=
  objectPath u "front" (date_now env (clockReads w)).
Definition backPath (env : Env) (u : User) (w : World) : string :=
  objectPath u "back" (date_now env (S (clockReads w))).
Definition selfiePath (env : Env) (u : User) (w : World) : string :=
  objectPath u "selfie" (date_now env (S (S (clockReads w)))).

(** The object an upload leaves in the bucket. *)
Definition stored (failed : bool) (path : string) (f : File)
    : list (string * File) :=
  if failed then [] else [(path, f)].

(** The row a run started in [w] hands to [insert]. *)
Definition submission (env : Env) (u : User) (w : World) : Row :=
  {| row_user_id := user_id u;
     document_front_url := publicUrl env (frontPath env u w);
     document_back_url := publicUrl env (backPath env u w);
     document_selfie_url := publicUrl env (selfiePath env u w);
     status := "pending" |}.

(** *** Sample data *)

Definition sampleUser : User := mkUser "u-42".

Definition sampleFront : File := mkFile "front.jpg" [].
Definition sampleBack : File := mkFile "back.jpg" [].
Definition sampleSelfie : File := mkFile "selfie.jpg" [].

(** Front and back bound, the selfie still missing. *)
Definition twoBound : list DocumentImage :=
  handleImageUpload [sampleBack] "back" "data:image/jpeg;base64,QkFDSw=="
    (handleImageUpload [sampleFront] "front"
       "data:image/jpeg;base64,RlJPTlQ=" initialImages).

Definition allBound : list DocumentImage :=
  handleImageUpload [sampleSelfie] "selfie"
    "data:image/jpeg;base64,U0VMRklF" twoBound.

(** A service in which every call succeeds. *)
Definition envAllOk : Env :=
  {| date_now := fun k => (1700000000000 + N.of_nat k)%N;
     upload_error := fun _ => false;
     insert_error := None;
     publicUrl := fun path => String.append "https://storage.example/" path |}.

(** A service whose second upload of the run answers with an error. *)
Definition envBackFails : Env :=
  {| date_now := date_now envAllOk;
     upload_error := fun k => Nat.eqb k 1;
     insert_error := None;
     publicUrl := publicUrl envAllOk |}.

(** A service whose uploads succeed and whose insert is refused. *)
Definition envInsertFails : Env :=
  {| date_now := date_now envAllOk;
     upload_error := fun _ => false;
     insert_error := Some "permission denied";
     publicUrl := publicUrl envAllOk |}.

End DocumentVerification.

(** * Properties *)

(** ** Pricing *)

Section Pricing.
Import PlanSelection.

Lemma Math_round_half_up (x : Q) : round_half_up x (Math_round x).
Proof.
  unfold round_half_up, Math_round.
  pose proof (Qfloor_le (x + (1 # 2))) as Hle.
  pose proof (Qlt_floor (x + (1 # 2))) as Hlt.
  rewrite inject_Z_plus in Hlt.
  change (inject_Z 1) with 1%Q in Hlt.
  generalize dependent (inject_Z (Qfloor (x + (1 # 2)))).
  intros n Hle Hlt. split; lra.
Qed.

Lemma round_half_up_unique (x : Q) (n n' : Z) :
  round_half_up x n -> round_half_up x n' -> n = n'.
Proof.
  intros [Hl Hu] [Hl' Hu'].
  assert (inject_Z n < inject_Z n' + 1)%Q as H1 by lra.
  assert (inject_Z n' < inject_Z n + 1)%Q as H2 by lra.
  change 1%Q with (inject_Z 1) in H1, H2.
  rewrite <- inject_Z_plus in H1, H2.
  rewrite <- Zlt_Qlt in H1, H2. lia.
Qed.

Lemma Math_round_integer (z : Z) : Math_round (inject_Z z * 1) = z.
Proof.
  apply (round_half_up_unique (inject_Z z * 1)).
  - apply Math_round_half_up.
  - split; lra.
Qed.

Lemma calculatePrice_nonzero (b m : Q) :
  ~ (b == 0)%Q ->
  calculatePrice b m = inject_Z (Math_round (b * m)).
Proof.
  intros Hb. unfold calculatePrice.
  destruct (Qeq_bool b 0) eqn:E; [|reflexivity].
  apply Qeq_bool_iff in E. contradiction.
Qed.

(** Over exact rationals: the price of a free plan is 0, and any other
    price is the exact product rounded half up. *)
Lemma exact_price_rounds_half_up (basePrice m : Q) :
  (calculatePrice 0 m == 0)%Q
  /\ (~ (basePrice == 0)%Q ->
      calculatePrice basePrice m = inject_Z (Math_round (basePrice * m))
      /\ round_half_up (basePrice * m) (Math_round (basePrice * m))).
Proof.
  split; [reflexivity|]. intros Hnz. split.
  - by apply calculatePrice_nonzero.
  - apply Math_round_half_up.
Qed.

(** *** The price over doubles *)

Lemma round_half_up_compat (x y : Q) (n : Z) :
  (x == y)%Q -> round_half_up x n -> round_half_up y n.
Proof. unfold round_half_up. intros Heq [H1 H2]. split; lra. Qed.

(** [Math.round] of a finite double is its value rounded half up. *)
Lemma double_round_half_up (x : Binary64.number) (q : Q) :
  Binary64.value x = Some q ->
  exists n, Binary64.intValue (Binary64.Math_round x) = Some n
            /\ round_half_up q n.
Proof.
  destruct x as [s | s | | s m e]; cbn [Binary64.value]; intros Hv;
    [|discriminate Hv|discriminate Hv|].
  - injection Hv as <-. exists 0%Z. split; [by destruct s|].
    split; by vm_compute.
  - injection Hv as <-. cbn [Binary64.Math_round].
    set (q := (inject_Z (cond_Zopp s (Z.pos m)) * 2 ^ e)%Q).
    exists (Math_round q). split; [|apply Math_round_half_up].
    fold (Math_round q).
    destruct ((Math_round q =? 0)%Z && s) eqn:E; [|reflexivity].
    apply andb_true_iff in E as [E _]. apply Z.eqb_eq in E.
    cbn [Binary64.intValue]. by rewrite E.
Qed.

Lemma double_value_nonzero (x : Binary64.number) (q : Q) :
  Binary64.isZero x = false -> Binary64.value x = Some q -> ~ (q == 0)%Q.
Proof.
  destruct x as [s | s | | s m e]; cbn [Binary64.value]; intros Hz Hv.
  - destruct s; vm_compute in Hz; discriminate Hz.
  - discriminate Hv.
  - discriminate Hv.
  - injection Hv as <-. intros H.
    assert (0 < 2 ^ e)%Q as Hpow by (apply Qpower_0_lt; reflexivity).
    apply Qmult_integral in H as [H | H]; [|lra].
    destruct s; unfold Qeq in H; cbn in H; lia.
Qed.

(** Where the product of two doubles is exact, the machine's price is
    the price over exact rationals. *)
Lemma exact_product_agrees (b m : Binary64.number) (qb qm q : Q) :
  Binary64.isZero b = false ->
  Binary64.value b = Some qb ->
  Binary64.value m = Some qm ->
  Binary64.value (Binary64.mul b m) = Some q ->
  (q == qb * qm)%Q ->
  exists n, Binary64.intValue (Binary64.calculatePrice b m) = Some n
            /\ calculatePrice qb qm = inject_Z n.
Proof.
  intros Hz Hb Hm Hq Hexact.
  destruct (double_round_half_up _ q Hq) as (n & Hn & Hround).
  exists n. unfold Binary64.calculatePrice. rewrite Hz.
  split; [exact Hn|].
  rewrite (calculatePrice_nonzero qb qm (double_value_nonzero b qb Hz Hb)).
  f_equal. apply (round_half_up_unique (qb * qm)).
  - apply Math_round_half_up.
  - by apply (round_half_up_compat q).
Qed.

(** C3, as the price is computed.  The price of a base price 0 is 0
    whatever the multiplier.  For any other base price it is the product
    rounded half up, where the product is the one the machine forms: the
    exact product rounded to the nearest double.  So price(100, 2.5) is
    250 and price(99, 0.5) is 50, where the products are exact. *)
Theorem C3_price_rounds_double_product (basePrice m : Binary64.number) :
  (Binary64.isZero basePrice = true ->
   Binary64.calculatePrice basePrice m = Binary64.Integer 0)
  /\ Binary64.calculatePrice (Binary64.ofZ 0) m = Binary64.Integer 0
  /\ (Binary64.isZero basePrice = false ->
      forall product,
        Binary64.value (Binary64.mul basePrice m) = Some product ->
        exists n : Z,
          Binary64.intValue (Binary64.calculatePrice basePrice m) = Some n
          /\ round_half_up product n
          /\ forall n', round_half_up product n' -> n' = n)
  /\ Binary64.calculatePrice (Binary64.ofZ 100) Binary64.twoAndAHalf
     = Binary64.Integer 250
  /\ Binary64.calculatePrice (Binary64.ofZ 99) Binary64.oneHalf
     = Binary64.Integer 50.
Proof.
  split; [|split; [|split; [|split]]].
  - intros Hz. unfold Binary64.calculatePrice. by rewrite Hz.
  - reflexivity.
  - intros Hz product Hp.
    destruct (double_round_half_up _ product Hp) as (n & Hn & Hround).
    exists n. unfold Binary64.calculatePrice. rewrite Hz.
    split; [exact Hn|]. split; [exact Hround|].
    intros n' Hn'. exact (round_half_up_unique _ _ _ Hn' Hround).
  - vm_compute. reflexivity.
  - vm_compute. reflexivity.
Qed.

Lemma C3_price_rounds_double_product_witness :
  exists (product : Q) (n : Z),
    Binary64.value (Binary64.mul (Binary64.ofZ 99) Binary64.oneHalf)
    = Some product
    /\ (product == 99 # 2)%Q
    /\ Binary64.intValue
         (Binary64.calculatePrice (Binary64.ofZ 99) Binary64.oneHalf)
       = Some n
    /\ round_half_up product n
    /\ forall n', round_half_up product n' -> n' = n.
Proof.
  assert (Binary64.isZero (Binary64.ofZ 99) = false) as Hz
    by (vm_compute; reflexivity).
  assert ({product : Q |
            Binary64.value
              (Binary64.mul (Binary64.ofZ 99) Binary64.oneHalf)
            = Some product
            /\ (product == 99 # 2)%Q}) as (product & Hv & Heq)
    by (eexists; split; vm_compute; reflexivity).
  destruct (C3_price_rounds_double_product (Binary64.ofZ 99) Binary64.oneHalf)
    as (_ & _ & H & _).
  destruct (H Hz product Hv) as (n & Hn & Hr & Hu).
  exists product, n. split; [exact Hv|]. split; [exact Heq|].
  split; [exact Hn|]. split; [exact Hr | exact Hu].
Defined.

(** C3 as stated fails: for the integer base price 1801439850948201 and
    the multiplier 2.5, both exactly representable, the exact product
    ends in .5 and rounds half up to 4503599627370503, but the machine's
    product is already the even neighbour and the price is
    4503599627370502. *)
Lemma C3_counterexample :
  (exists qb qm,
     Binary64.value (Binary64.ofZ Binary64.hugePrice) = Some qb
     /\ (qb == inject_Z Binary64.hugePrice)%Q
     /\ Binary64.value Binary64.twoAndAHalf = Some qm
     /\ (qm == 5 # 2)%Q)
  /\ Binary64.calculatePrice (Binary64.ofZ Binary64.hugePrice)
       Binary64.twoAndAHalf
     = Binary64.Integer 4503599627370502
  /\ round_half_up (inject_Z Binary64.hugePrice * (5 # 2)) 4503599627370503
  /\ ~ round_half_up (inject_Z Binary64.hugePrice * (5 # 2))
         4503599627370502.
Proof.
  split; [|split; [|split]].
  - eexists. eexists.
    split; [vm_compute; reflexivity|]. split; [vm_compute; reflexivity|].
    split; vm_compute; reflexivity.
  - vm_compute. reflexivity.
  - split; vm_compute; [discriminate | reflexivity].
  - intros [_ H]. vm_compute in H. discriminate H.
Qed.

(** The machine rounds twice, first the product and then the price:
    the double nearest to 0.6 is a little below 0.6, its exact product
    with 2.5 is a little below 1.5, yet the double product is 1.5 and
    the price is 2, where exact arithmetic on the same two doubles
    gives 1. *)
Lemma product_is_rounded_first :
  let sixTenths := Binary64.literal 5404319552844595 (-53) in
  Binary64.calculatePrice sixTenths Binary64.twoAndAHalf
  = Binary64.Integer 2
  /\ calculatePrice (5404319552844595 # 9007199254740992) (5 # 2)
     = inject_Z 1.
Proof. split; vm_compute; reflexivity. Qed.

(** *** Further properties of the price *)











End Pricing.

(** ** Identity-document upload *)

Section DocumentUpload.
Import DocumentVerification.

(** The page always holds the three slots, in their order; only the
    bound file and the preview of a slot ever change. *)
Lemma reachableImages_shape images :
  reachableImages images ->
  exists f1 p1 f2 p2 f3 p3,
    images =
      slots f1 p1 f2 p2 f3 p3.
Proof.
  unfold slots.
  induction 1 as [|files imageId result prev _ IH].
  - repeat eexists.
  - destruct IH as (f1 & p1 & f2 & p2 & f3 & p3 & ->).
    unfold handleImageUpload.
    destruct files as [|f files]; [repeat eexists|].
    destruct (negb (String.eqb result "")); [|repeat eexists].
    cbn [map img_id title instruction].
    destruct (String.eqb "front" imageId), (String.eqb "back" imageId),
      (String.eqb "selfie" imageId); repeat eexists.
Qed.

Lemma allUploaded_bound images :
  reachableImages images -> allUploaded images = true ->
  exists ff bf sf p1 p2 p3,
    images =
      slots (Some ff) p1 (Some bf) p2 (Some sf) p3.
Proof.
  intros Hr Hall.
  destruct (reachableImages_shape _ Hr)
    as (f1 & p1 & f2 & p2 & f3 & p3 & ->).
  destruct f1 as [ff|], f2 as [bf|], f3 as [sf|]; try discriminate Hall.
  by exists ff, bf, sf, p1, p2, p3.
Qed.

(** Symbolic execution of the handler: expose the world, unfold the
    monad and the primitive calls, leave paths and addresses folded. *)
Ltac run_handler w :=
  destruct w as [up bk tb cr uc tr];
  cbv [handleContinue slots allUploaded forallb file bool_decide decide_rel
       is_Some_dec decide
       negb andb finally tryCatch tryBlock catchBlock fileOf List.find
       img_id String.eqb Ascii.eqb Bool.eqb
       mbind M_bind mret M_ret Date_now upload getPublicUrl insert emit
       throw setIsUploading snd fst
       frontFails backFails selfieFails frontPath backPath selfiePath
       submission stored uploadsIssued insertsIssued storageCalls
       isUploading bucket table clockReads uploadCalls trace].

Lemma handleContinue_upload_failure env u ff bf sf p1 p2 p3 w :
  frontFails env w || backFails env w || selfieFails env w = true ->
  handleContinue env (Some u)
    (slots (Some ff) p1 (Some bf) p2 (Some sf) p3) w
  = {| isUploading := false;
       bucket := bucket w ++ stored (frontFails env w) (frontPath env u w) ff
                          ++ stored (backFails env w) (backPath env u w) bf
                          ++ stored (selfieFails env w) (selfiePath env u w) sf;
       table := table w;
       clockReads := S (S (S (clockReads w)));
       uploadCalls := S (S (S (uploadCalls w)));
       trace := trace w ++
         [ StorageUpload "verifications" (frontPath env u w) ff;
           StorageUpload "verifications" (backPath env u w) bf;
           StorageUpload "verifications" (selfiePath env u w) sf;
           ConsoleError "Error uploading documents:" uploadFailed;
           failureToast ] |}.
Proof.
  run_handler w.
  destruct (upload_error env uc), (upload_error env (S uc)),
    (upload_error env (S (S uc))); try discriminate; intros _; cbn;
    rewrite <- ?app_assoc, ?app_nil_r; reflexivity.
Qed.

Lemma handleContinue_uploads_ok env u ff bf sf p1 p2 p3 w :
  frontFails env w = false -> backFails env w = false ->
  selfieFails env w = false ->
  handleContinue env (Some u)
    (slots (Some ff) p1 (Some bf) p2 (Some sf) p3) w
  = {| isUploading := false;
       bucket := bucket w ++ [ (frontPath env u w, ff);
                               (backPath env u w, bf);
                               (selfiePath env u w, sf) ];
       table := match insert_error env with
                | None => table w ++ [submission env u w]
                | Some _ => table w
                end;
       clockReads := S (S (S (clockReads w)));
       uploadCalls := S (S (S (uploadCalls w)));
       trace := trace w ++
         [ StorageUpload "verifications" (frontPath env u w) ff;
           StorageUpload "verifications" (backPath env u w) bf;
           StorageUpload "verifications" (selfiePath env u w) sf;
           StorageGetPublicUrl "verifications" (frontPath env u w);
           StorageGetPublicUrl "verifications" (backPath env u w);
           StorageGetPublicUrl "verifications" (selfiePath env u w);
           TableInsert "verification_documents" (submission env u w) ]
         ++ match insert_error env with
            | None => [ sentToast; Navigate "/dashboard" ]
            | Some message =>
                [ ConsoleError "Error uploading documents:"
                    (InsertError message);
                  failureToast ]
            end |}.
Proof.
  run_handler w.
  intros -> -> ->.
  destruct (insert_error env); cbn;
    rewrite <- ?app_assoc; reflexivity.
Qed.

Lemma handleContinue_incomplete env u images w :
  allUploaded images = false ->
  handleContinue env (Some u) images w
  = {| isUploading := isUploading w; bucket := bucket w; table := table w;
       clockReads := clockReads w; uploadCalls := uploadCalls w;
       trace := trace w ++ [incompleteToast] |}.
Proof. intros H. unfold handleContinue. rewrite H. reflexivity. Qed.

Lemma two_bound_not_all images :
  reachableImages images -> boundSlots images = 2%nat ->
  allUploaded images = false.
Proof.
  intros Hr.
  destruct (reachableImages_shape _ Hr)
    as (f1 & p1 & f2 & p2 & f3 & p3 & ->).
  destruct f1, f2, f3; cbv; congruence.
Qed.

Lemma filter_snoc_false {A} (p : A -> bool) l x :
  p x = false -> List.filter p (l ++ [x]) = List.filter p l.
Proof.
  intros H. rewrite List.filter_app. cbn. rewrite H. apply app_nil_r.
Qed.

Lemma twoBound_reachable : reachableImages twoBound.
Proof. repeat constructor. Qed.

Lemma allBound_reachable : reachableImages allBound.
Proof. repeat constructor. Qed.

(** C8. With the caller signed in and only two of the three slots bound,
    the submit handler reports "Documentos incompletos" (the
    IncompleteSubmission failure) and does nothing else: no storage
    call, no upload, no insert, bucket and table untouched. *)
Theorem C8_incomplete_submission env u images w :
  reachableImages images ->
  boundSlots images = 2%nat ->
  let w' := handleContinue env (Some u) images w in
  trace w' = trace w ++ [incompleteToast]
  /\ storageCalls w' = storageCalls w
  /\ uploadCalls w' = uploadCalls w
  /\ bucket w' = bucket w
  /\ table w' = table w
  /\ isUploading w' = isUploading w.
Proof.
  intros Hr Hn w'. subst w'.
  rewrite (handleContinue_incomplete env u images w
             (two_bound_not_all _ Hr Hn)).
  repeat split. unfold storageCalls. cbn [trace].
  by apply filter_snoc_false.
Qed.

Lemma C8_incomplete_submission_witness :
  let w' := handleContinue envAllOk (Some sampleUser) twoBound start in
  trace w' = trace start ++ [incompleteToast]
  /\ storageCalls w' = storageCalls start
  /\ uploadCalls w' = uploadCalls start
  /\ bucket w' = bucket start
  /\ table w' = table start
  /\ isUploading w' = isUploading start.
Proof.
  apply (C8_incomplete_submission envAllOk sampleUser twoBound start).
  - exact twoBound_reachable.
  - reflexivity.
Defined.

(** C5. With the caller signed in, the three slots bound and the three
    uploads answered without error, the handler issues exactly one
    insert; its row has status "pending" and carries the public
    addresses of the three objects just stored (front, back, selfie).
    The records table gains that one row, or none when the store answers
    the insert with an error; never more, never a partial row. *)
Theorem C5_all_uploads_succeed env u images w :
  reachableImages images ->
  allUploaded images = true ->
  frontFails env w = false ->
  backFails env w = false ->
  selfieFails env w = false ->
  exists ff bf sf,
    fileOf "front" images = Some ff
    /\ fileOf "back" images = Some bf
    /\ fileOf "selfie" images = Some sf
    /\ let w' := handleContinue env (Some u) images w in
       let row := submission env u w in
       insertsIssued w'
         = insertsIssued w ++ [TableInsert "verification_documents" row]
       /\ status row = "pending"
       /\ row_user_id row = user_id u
       /\ document_front_url row = publicUrl env (frontPath env u w)
       /\ document_back_url row = publicUrl env (backPath env u w)
       /\ document_selfie_url row = publicUrl env (selfiePath env u w)
       /\ bucket w' = bucket w ++ [ (frontPath env u w, ff);
                                   (backPath env u w, bf);
                                   (selfiePath env u w, sf) ]
       /\ table w' = match insert_error env with
                     | None => table w ++ [row]
                     | Some _ => table w
                     end.
Proof.
  intros Hr Hall H1 H2 H3.
  destruct (allUploaded_bound _ Hr Hall)
    as (ff & bf & sf & p1 & p2 & p3 & ->).
  exists ff, bf, sf. do 3 (split; [reflexivity|]).
  intros w' row. subst w' row.
  rewrite (handleContinue_uploads_ok env u ff bf sf p1 p2 p3 w H1 H2 H3).
  unfold insertsIssued. cbn [trace bucket table].
  rewrite !List.filter_app.
  split; [|repeat split].
  destruct (insert_error env); cbn; rewrite ?app_nil_r; reflexivity.
Qed.

Lemma C5_all_uploads_succeed_witness :
  exists ff bf sf,
    fileOf "front" allBound = Some ff
    /\ fileOf "back" allBound = Some bf
    /\ fileOf "selfie" allBound = Some sf
    /\ let w' := handleContinue envAllOk (Some sampleUser) allBound start in
       let row := submission envAllOk sampleUser start in
       insertsIssued w'
         = insertsIssued start ++ [TableInsert "verification_documents" row]
       /\ status row = "pending"
       /\ row_user_id row = user_id sampleUser
       /\ document_front_url row
          = publicUrl envAllOk (frontPath envAllOk sampleUser start)
       /\ document_back_url row
          = publicUrl envAllOk (backPath envAllOk sampleUser start)
       /\ document_selfie_url row
          = publicUrl envAllOk (selfiePath envAllOk sampleUser start)
       /\ bucket w'
          = bucket start ++
            [ (frontPath envAllOk sampleUser start, ff);
              (backPath envAllOk sampleUser start, bf);
              (selfiePath envAllOk sampleUser start, sf) ]
       /\ table w' = match insert_error envAllOk with
                     | None => table start ++ [row]
                     | Some _ => table start
                     end.
Proof.
  apply (C5_all_uploads_succeed envAllOk sampleUser allBound start).
  - exact allBound_reachable.
  - reflexivity.
  - reflexivity.
  - reflexivity.
  - reflexivity.
Defined.

(** C1, as the handler behaves.  With the caller signed in and the three
    slots bound, if any upload answers with an error the handler has
    nevertheless issued all three uploads, front, back, selfie, in that
    order; it then reports the upload failure and issues no insert, so
    no row is created.  Every upload that did not fail leaves its object
    in the bucket: when the front upload succeeds and the back upload
    fails, the front object stays, and so does the selfie object unless
    that upload failed too. *)
Theorem C1_upload_failure env u images w :
  reachableImages images ->
  allUploaded images = true ->
  frontFails env w || backFails env w || selfieFails env w = true ->
  exists ff bf sf,
    fileOf "front" images = Some ff
    /\ fileOf "back" images = Some bf
    /\ fileOf "selfie" images = Some sf
    /\ let w' := handleContinue env (Some u) images w in
       trace w' = trace w ++
         [ StorageUpload "verifications" (frontPath env u w) ff;
           StorageUpload "verifications" (backPath env u w) bf;
           StorageUpload "verifications" (selfiePath env u w) sf;
           ConsoleError "Error uploading documents:" uploadFailed;
           failureToast ]
       /\ insertsIssued w' = insertsIssued w
       /\ table w' = table w
       /\ bucket w' = bucket w
            ++ stored (frontFails env w) (frontPath env u w) ff
            ++ stored (backFails env w) (backPath env u w) bf
            ++ stored (selfieFails env w) (selfiePath env u w) sf
       /\ (frontFails env w = false -> backFails env w = true ->
           bucket w' = bucket w ++ (frontPath env u w, ff)
                         :: stored (selfieFails env w) (selfiePath env u w) sf)
       /\ isUploading w' = false.
Proof.
  intros Hr Hall Hfail.
  destruct (allUploaded_bound _ Hr Hall)
    as (ff & bf & sf & p1 & p2 & p3 & ->).
  exists ff, bf, sf. do 3 (split; [reflexivity|]).
  intros w'. subst w'.
  rewrite (handleContinue_upload_failure env u ff bf sf p1 p2 p3 w Hfail).
  unfold insertsIssued. cbn [trace bucket table isUploading].
  rewrite List.filter_app. cbn [List.filter isInsertCall app failureToast].
  rewrite app_nil_r.
  repeat split.
  intros -> ->. reflexivity.
Qed.

Lemma C1_upload_failure_witness :
  exists ff bf sf,
    fileOf "front" allBound = Some ff
    /\ fileOf "back" allBound = Some bf
    /\ fileOf "selfie" allBound = Some sf
    /\ let env := envBackFails in
       let u := sampleUser in
       let w := start in
       let w' := handleContinue env (Some u) allBound w in
       trace w' = trace w ++
         [ StorageUpload "verifications" (frontPath env u w) ff;
           StorageUpload "verifications" (backPath env u w) bf;
           StorageUpload "verifications" (selfiePath env u w) sf;
           ConsoleError "Error uploading documents:" uploadFailed;
           failureToast ]
       /\ insertsIssued w' = insertsIssued w
       /\ table w' = table w
       /\ bucket w' = bucket w
            ++ stored (frontFails env w) (frontPath env u w) ff
            ++ stored (backFails env w) (backPath env u w) bf
            ++ stored (selfieFails env w) (selfiePath env u w) sf
       /\ (frontFails env w = false -> backFails env w = true ->
           bucket w' = bucket w ++ (frontPath env u w, ff)
                         :: stored (selfieFails env w) (selfiePath env u w) sf)
       /\ isUploading w' = false.
Proof.
  apply (C1_upload_failure envBackFails sampleUser allBound start).
  - exact allBound_reachable.
  - reflexivity.
  - reflexivity.
Defined.

(** C1 as stated fails: the second upload of the run answers with an
    error after the first succeeded, yet a third upload call is issued
    after it, and two objects, not one, are left in the bucket while no
    row exists. *)
Lemma C1_counterexample :
  let w' := handleContinue envBackFails (Some sampleUser) allBound start in
  allUploaded allBound = true
  /\ frontFails envBackFails start = false
  /\ backFails envBackFails start = true
  /\ uploadsIssued w'
     = [ StorageUpload "verifications"
           (frontPath envBackFails sampleUser start) sampleFront;
         StorageUpload "verifications"
           (backPath envBackFails sampleUser start) sampleBack;
         StorageUpload "verifications"
           (selfiePath envBackFails sampleUser start) sampleSelfie ]
  /\ bucket w'
     = [ (frontPath envBackFails sampleUser start, sampleFront);
         (selfiePath envBackFails sampleUser start, sampleSelfie) ]
  /\ length (bucket w') <> 1%nat
  /\ table w' = [].
Proof.
  cbv zeta. repeat split; try reflexivity.
  vm_compute. discriminate.
Qed.

(** *** Further properties of the upload page *)

(** X14. Without a session the handler only asks the user to sign in and
    sends them to the sign-in page.  The check comes first: whatever the
    slots hold, nothing is uploaded, read from the clock or inserted. *)
Theorem handleContinue_unauthenticated env images w :
  let w' := handleContinue env None images w in
  trace w' = trace w ++ [loginToast; Navigate "/auth"]
  /\ storageCalls w' = storageCalls w
  /\ bucket w' = bucket w
  /\ table w' = table w
  /\ uploadCalls w' = uploadCalls w
  /\ clockReads w' = clockReads w
  /\ isUploading w' = isUploading w.
Proof.
  cbv zeta. unfold storageCalls.
  cbv [handleContinue mbind M_bind emit snd
       isUploading bucket table clockReads uploadCalls trace].
  destruct w as [up bk tb cr uc tr].
  rewrite <- app_assoc. repeat split.
  rewrite List.filter_app. cbn. apply app_nil_r.
Qed.

(** X15. The submit button is always handed back: whoever is signed in,
    whatever the slots hold and however the services answer, a run that
    started with [isUploading] unset ends with it unset. *)
Theorem handleContinue_resets_isUploading env user images w :
  isUploading w = false ->
  isUploading (handleContinue env user images w) = false.
Proof.
  intros Hidle. unfold handleContinue.
  destruct user as [u|]; [|exact Hidle].
  destruct (allUploaded images); cbn [negb]; [|exact Hidle].
  unfold finally.
  by destruct (tryCatch (tryBlock env u images) catchBlock
                 (setIsUploading true w)).
Qed.

Lemma handleContinue_resets_isUploading_witness :
  isUploading
    (handleContinue envBackFails (Some sampleUser) allBound start) = false.
Proof.
  apply (handleContinue_resets_isUploading envBackFails (Some sampleUser)
           allBound start).
  reflexivity.
Defined.

(** X16. A refused insert after three good uploads: the failure is reported
    with the error of the insert, no row exists, the user stays on the
    page, and the three objects just uploaded remain in the bucket. *)
Theorem insert_failure_orphans_uploads env u images w message :
  reachableImages images ->
  allUploaded images = true ->
  frontFails env w = false ->
  backFails env w = false ->
  selfieFails env w = false ->
  insert_error env = Some message ->
  exists ff bf sf,
    fileOf "front" images = Some ff
    /\ fileOf "back" images = Some bf
    /\ fileOf "selfie" images = Some sf
    /\ let w' := handleContinue env (Some u) images w in
       trace w' = trace w ++
         [ StorageUpload "verifications" (frontPath env u w) ff;
           StorageUpload "verifications" (backPath env u w) bf;
           StorageUpload "verifications" (selfiePath env u w) sf;
           StorageGetPublicUrl "verifications" (frontPath env u w);
           StorageGetPublicUrl "verifications" (backPath env u w);
           StorageGetPublicUrl "verifications" (selfiePath env u w);
           TableInsert "verification_documents" (submission env u w);
           ConsoleError "Error uploading documents:" (InsertError message);
           failureToast ]
       /\ table w' = table w
       /\ bucket w' = bucket w ++ [ (frontPath env u w, ff);
                                   (backPath env u w, bf);
                                   (selfiePath env u w, sf) ].
Proof.
  intros Hr Hall H1 H2 H3 Hins.
  destruct (allUploaded_bound _ Hr Hall)
    as (ff & bf & sf & p1 & p2 & p3 & ->).
  exists ff, bf, sf. do 3 (split; [reflexivity|]).
  intros w'. subst w'.
  rewrite (handleContinue_uploads_ok env u ff bf sf p1 p2 p3 w H1 H2 H3).
  rewrite Hins. cbn [trace table bucket]. repeat split.
Qed.

Lemma insert_failure_orphans_uploads_witness :
  exists ff bf sf,
    fileOf "front" allBound = Some ff
    /\ fileOf "back" allBound = Some bf
    /\ fileOf "selfie" allBound = Some sf
    /\ let env := envInsertFails in
       let u := sampleUser in
       let w := start in
       let w' := handleContinue env (Some u) allBound w in
       trace w' = trace w ++
         [ StorageUpload "verifications" (frontPath env u w) ff;
           StorageUpload "verifications" (backPath env u w) bf;
           StorageUpload "verifications" (selfiePath env u w) sf;
           StorageGetPublicUrl "verifications" (frontPath env u w);
           StorageGetPublicUrl "verifications" (backPath env u w);
           StorageGetPublicUrl "verifications" (selfiePath env u w);
           TableInsert "verification_documents" (submission env u w);
           ConsoleError "Error uploading documents:"
             (InsertError "permission denied");
           failureToast ]
       /\ table w' = table w
       /\ bucket w' = bucket w ++ [ (frontPath env u w, ff);
                                   (backPath env u w, bf);
                                   (selfiePath env u w, sf) ].
Proof.
  apply (insert_failure_orphans_uploads envInsertFails sampleUser allBound
           start "permission denied");
    first [exact allBound_reachable | reflexivity].
Defined.

(** The four ways a signed-in run can end, with what each adds to the
    trace. *)
Lemma handleContinue_outcomes env u images w :
  reachableImages images ->
  exists added,
    trace (handleContinue env (Some u) images w) = trace w ++ added
    /\ ((allUploaded images = false /\ added = [incompleteToast])
        \/ (allUploaded images = true
            /\ frontFails env w || backFails env w || selfieFails env w
               = true
            /\ exists ff bf sf,
                 added =
                   [ StorageUpload "verifications" (frontPath env u w) ff;
                     StorageUpload "verifications" (backPath env u w) bf;
                     StorageUpload "verifications" (selfiePath env u w) sf;
                     ConsoleError "Error uploading documents:" uploadFailed;
                     failureToast ])
        \/ (allUploaded images = true
            /\ frontFails env w || backFails env w || selfieFails env w
               = false
            /\ exists ff bf sf,
                 added =
                   [ StorageUpload "verifications" (frontPath env u w) ff;
                     StorageUpload "verifications" (backPath env u w) bf;
                     StorageUpload "verifications" (selfiePath env u w) sf;
                     StorageGetPublicUrl "verifications" (frontPath env u w);
                     StorageGetPublicUrl "verifications" (backPath env u w);
                     StorageGetPublicUrl "verifications" (selfiePath env u w);
                     TableInsert "verification_documents"
                       (submission env u w) ]
                   ++ match insert_error env with
                      | None => [ sentToast; Navigate "/dashboard" ]
                      | Some message =>
                          [ ConsoleError "Error uploading documents:"
                              (InsertError message);
                            failureToast ]
                      end)).
Proof.
  intros Hr.
  destruct (allUploaded images) eqn:Hall.
  - destruct (allUploaded_bound _ Hr Hall)
      as (ff & bf & sf & p1 & p2 & p3 & ->).
    destruct (frontFails env w || backFails env w || selfieFails env w)
      eqn:Hfail.
    + rewrite (handleContinue_upload_failure env u ff bf sf p1 p2 p3 w Hfail).
      eexists. split; [reflexivity|]. right. left.
      repeat split. by exists ff, bf, sf.
    + apply orb_false_elim in Hfail as [Hfail H3].
      apply orb_false_elim in Hfail as [H1 H2].
      rewrite (handleContinue_uploads_ok env u ff bf sf p1 p2 p3 w H1 H2 H3).
      eexists. split; [reflexivity|]. right. right.
      repeat split. by exists ff, bf, sf.
  - rewrite (handleContinue_incomplete env u images w Hall).
    eexists. split; [reflexivity|]. by left.
Qed.

(** X17. The user is sent to the dashboard exactly when everything worked:
    all three slots bound, no upload answered with an error and the
    insert accepted. *)
Theorem dashboard_iff_all_succeeded env u images w added :
  reachableImages images ->
  trace (handleContinue env (Some u) images w) = trace w ++ added ->
  In (Navigate "/dashboard") added
  <-> allUploaded images = true
      /\ frontFails env w = false
      /\ backFails env w = false
      /\ selfieFails env w = false
      /\ insert_error env = None.
Proof.
  intros Hr Hadded.
  destruct (handleContinue_outcomes env u images w Hr)
    as (added' & Htrace & Hcases).
  rewrite Htrace in Hadded. apply app_inv_head in Hadded as <-.
  destruct Hcases
    as [[Hall ->] | [(Hall & Hfail & ff & bf & sf & ->)
                    | (Hall & Hok & ff & bf & sf & ->)]].
  - split.
    + cbn. intros [H | []]. discriminate H.
    + intros (H & _). congruence.
  - split.
    + cbn. intros H. repeat destruct H as [H | H]; try discriminate H.
      destruct H.
    + intros (_ & H1 & H2 & H3 & _).
      rewrite H1, H2, H3 in Hfail. discriminate Hfail.
  - apply orb_false_elim in Hok as [Hok H3].
    apply orb_false_elim in Hok as [H1 H2].
    destruct (insert_error env) as [message|].
    + split.
      * cbn. intros H. repeat destruct H as [H | H]; try discriminate H.
        destruct H.
      * intros (_ & _ & _ & _ & H). discriminate H.
    + split; [done|]. intros _. cbn. tauto.
Qed.

Lemma dashboard_iff_all_succeeded_witness :
  In (Navigate "/dashboard")
     (drop (length (trace start))
        (trace (handleContinue envAllOk (Some sampleUser) allBound start)))
  <-> allUploaded allBound = true
      /\ frontFails envAllOk start = false
      /\ backFails envAllOk start = false
      /\ selfieFails envAllOk start = false
      /\ insert_error envAllOk = None.
Proof.
  apply (dashboard_iff_all_succeeded envAllOk sampleUser allBound start).
  - exact allBound_reachable.
  - reflexivity.
Defined.

(** X18. The guard [throw new Error("Files missing")] never fires: the page
    always holds the three slots, so once [every] has passed each of the
    three lookups finds its file. *)
Theorem files_missing_unreachable env u images w added :
  reachableImages images ->
  trace (handleContinue env (Some u) images w) = trace w ++ added ->
  ~ In (ConsoleError "Error uploading documents:" filesMissing) added.
Proof.
  intros Hr Hadded.
  destruct (handleContinue_outcomes env u images w Hr)
    as (added' & Htrace & Hcases).
  rewrite Htrace in Hadded. apply app_inv_head in Hadded as <-.
  destruct Hcases
    as [[Hall ->] | [(Hall & Hfail & ff & bf & sf & ->)
                    | (Hall & Hok & ff & bf & sf & ->)]];
    cbn; intros H.
  - destruct H as [H | []]. discriminate H.
  - repeat destruct H as [H | H]; try discriminate H. destruct H.
  - destruct (insert_error env); cbn in H;
      repeat destruct H as [H | H]; try discriminate H; destruct H.
Qed.

Lemma files_missing_unreachable_witness :
  ~ In (ConsoleError "Error uploading documents:" filesMissing)
       (drop (length (trace start))
          (trace (handleContinue envBackFails (Some sampleUser) allBound
                    start))).
Proof.
  apply (files_missing_unreachable envBackFails sampleUser allBound start).
  - exact allBound_reachable.
  - reflexivity.
Defined.

Lemma fileOf_upload_other images files imageId result other :
  other <> imageId ->
  fileOf other (handleImageUpload files imageId result images)
  = fileOf other images.
Proof.
  intros Hne. unfold handleImageUpload.
  destruct files as [|f rest]; [reflexivity|].
  destruct (negb (String.eqb result "")); [|reflexivity].
  unfold fileOf. induction images as [|img images IH]; [reflexivity|].
  cbn [map List.find].
  destruct (String.eqb (img_id img) imageId) eqn:E; cbn [img_id].
  - apply String.eqb_eq in E.
    assert (String.eqb (img_id img) other = false) as ->
      by (apply String.eqb_neq; congruence).
    exact IH.
  - destruct (String.eqb (img_id img) other); [reflexivity | exact IH].
Qed.

Lemma fileOf_upload_same images f rest imageId result :
  In imageId (map img_id images) ->
  result <> "" ->
  fileOf imageId (handleImageUpload (f :: rest) imageId result images)
  = Some f.
Proof.
  intros Hin Hres. unfold handleImageUpload.
  apply String.eqb_neq in Hres. rewrite Hres. cbn [negb].
  unfold fileOf. induction images as [|img images IH]; [destruct Hin|].
  cbn [map List.find].
  destruct (String.eqb (img_id img) imageId) eqn:E; cbn [img_id].
  - rewrite E. reflexivity.
  - rewrite E. apply IH. destruct Hin as [Hin | Hin]; [|exact Hin].
    apply String.eqb_neq in E. contradiction.
Qed.

Lemma reachableImages_ids images :
  reachableImages images -> map img_id images = ["front"; "back"; "selfie"].
Proof.
  intros Hr.
  by destruct (reachableImages_shape _ Hr)
    as (f1 & p1 & f2 & p2 & f3 & p3 & ->).
Qed.

(** X19. Binding a file: after a file has been chosen for one of the three
    slots and read, that slot holds the first file of the selection and
    the other slots hold what they held before. *)
Theorem bind_then_lookup images f rest imageId result :
  reachableImages images ->
  In imageId ["front"; "back"; "selfie"] ->
  result <> "" ->
  let images' := handleImageUpload (f :: rest) imageId result images in
  fileOf imageId images' = Some f
  /\ forall other, other <> imageId ->
       fileOf other images' = fileOf other images.
Proof.
  intros Hr Hid Hres images'. subst images'. split.
  - apply fileOf_upload_same; [|exact Hres].
    by rewrite (reachableImages_ids _ Hr).
  - intros other Hne. by apply fileOf_upload_other.
Qed.

Lemma bind_then_lookup_witness :
  let images' :=
    handleImageUpload [sampleSelfie; sampleBack] "back" "data:," twoBound in
  fileOf "back" images' = Some sampleSelfie
  /\ forall other, other <> "back" ->
       fileOf other images' = fileOf other twoBound.
Proof.
  apply (bind_then_lookup twoBound sampleSelfie [sampleBack] "back" "data:,").
  - exact twoBound_reachable.
  - cbn. tauto.
  - discriminate.
Defined.

(** X20. A slot, once bound, stays bound: no selection ever lowers the number
    of bound slots, so once all three are bound they remain so; and the
    [every] test of the submit handler passes exactly when three slots
    are bound. *)
Theorem slots_stay_bound images files imageId result :
  reachableImages images ->
  let images' := handleImageUpload files imageId result images in
  (boundSlots images <= boundSlots images' <= 3)%nat
  /\ (allUploaded images = true -> allUploaded images' = true)
  /\ (allUploaded images' = true <-> boundSlots images' = 3%nat).
Proof.
  intros Hr images'.
  assert (reachableImages images') as Hr' by (by constructor).
  destruct (reachableImages_shape _ Hr)
    as (f1 & p1 & f2 & p2 & f3 & p3 & ->).
  destruct (reachableImages_shape _ Hr')
    as (g1 & q1 & g2 & q2 & g3 & q3 & Himages').
  assert ((is_Some f1 -> is_Some g1) /\ (is_Some f2 -> is_Some g2)
          /\ (is_Some f3 -> is_Some g3)) as (K1 & K2 & K3).
  { subst images'. unfold handleImageUpload, slots in Himages'.
    destruct files as [|f files];
      [injection Himages' as <- _ <- _ <- _; done|].
    destruct (negb (String.eqb result ""));
      [|injection Himages' as <- _ <- _ <- _; done].
    cbn [map img_id] in Himages'.
    destruct (String.eqb "front" imageId), (String.eqb "back" imageId),
      (String.eqb "selfie" imageId);
      injection Himages' as <- _ <- _ <- _; repeat split; eauto. }
  rewrite Himages'. clear Himages' Hr Hr'.
  destruct f1, f2, f3, g1, g2, g3;
    try (exfalso; first [ by apply (is_Some_None (A:=File)), K1
                        | by apply (is_Some_None (A:=File)), K2
                        | by apply (is_Some_None (A:=File)), K3 ]);
    vm_compute; repeat split; intros; try lia; congruence.
Qed.

Lemma slots_stay_bound_witness :
  let images' :=
    handleImageUpload [sampleSelfie] "selfie" "data:," twoBound in
  (boundSlots twoBound <= boundSlots images' <= 3)%nat
  /\ (allUploaded twoBound = true -> allUploaded images' = true)
  /\ (allUploaded images' = true <-> boundSlots images' = 3%nat).
Proof.
  apply (slots_stay_bound twoBound [sampleSelfie] "selfie" "data:,").
  exact twoBound_reachable.
Defined.

Lemma append_cancel_l (prefix a b : string) :
  String.append prefix a = String.append prefix b -> a = b.
Proof.
  induction prefix as [|c prefix IH]; cbn; [done|].
  intros [= H]. by apply IH.
Qed.

(** X21. Object keys: the three objects of one run never share a key, even
    when the clock returns the same reading three times, and two keys
    for the same user and slot coincide only if the clock readings do. *)
Theorem object_paths_distinct (u : User) (t t' t'' : N) :
  objectPath u "front" t <> objectPath u "back" t'
  /\ objectPath u "front" t <> objectPath u "selfie" t''
  /\ objectPath u "back" t' <> objectPath u "selfie" t''
  /\ forall slot, objectPath u slot t = objectPath u slot t' -> t = t'.
Proof.
  unfold objectPath.
  split; [|split; [|split]];
    try (intros H; do 2 apply append_cancel_l in H;
         cbn in H; discriminate H).
  intros slot H. do 5 apply append_cancel_l in H.
  by apply (inj pretty).
Qed.

Lemma object_paths_distinct_witness :
  objectPath sampleUser "front" 1700000000000
  <> objectPath sampleUser "back" 1700000000000
  /\ (objectPath sampleUser "selfie" 1700000000000
      = objectPath sampleUser "selfie" 1700000000000 ->
      1700000000000%N = 1700000000000%N).
Proof.
  destruct (object_paths_distinct sampleUser 1700000000000 1700000000000
              1700000000000) as (H1 & _ & _ & H4).
  split; [exact H1 | exact (H4 "selfie")].
Defined.

End DocumentUpload.

(** ** Payment dialog *)

Section Payment.
Import PaymentModal.

Lemma cardRejected_true_iff c :
  cardRejected c = true <->
  (length16 (number c) < 16)%nat \/ name c = ""
  \/ (length16 (expiry c) < 5)%nat \/ (length16 (cvc c) < 3)%nat.
Proof.
  unfold cardRejected.
  rewrite !orb_true_iff, !Nat.ltb_lt, String.eqb_eq. tauto.
Qed.

Lemma cardRejected_false_iff c :
  cardRejected c = false <-> cardAccepted c.
Proof.
  unfold cardAccepted. rewrite <- not_true_iff_false, cardRejected_true_iff.
  split.
  - intros H. repeat split; try (apply Nat.nlt_ge; tauto). tauto.
  - intros (H1 & H2 & H3 & H4) [H | [H | [H | H]]];
      [lia | contradiction | lia | lia].
Qed.

Lemma handleSubmit_invalid w :
  paymentMethod (ui w) = "credit_card" ->
  cardRejected (cardDetails (ui w)) = true ->
  handleSubmit w = emit incompleteToast w.
Proof. intros Hm Hc. unfold handleSubmit. by rewrite Hm, Hc. Qed.

Lemma handleSubmit_valid w :
  validInput (ui w) ->
  handleSubmit w
  = setTimeout Settlement simulatedDelay (withUi (setIsProcessing true) w).
Proof.
  intros [Hm | Hc]; unfold handleSubmit.
  - apply String.eqb_neq in Hm. by rewrite Hm.
  - apply cardRejected_false_iff in Hc. rewrite Hc. by rewrite andb_false_r.
Qed.

(** A single queued timer that is not yet due stays queued. *)
Lemma advance_pending w d cb dt :
  timers w = [mkTimer d cb] -> (now w + dt < d)%nat ->
  advance dt w
  = {| ui := ui w; now := now w + dt; timers := [mkTimer d cb];
       dialogOpen := dialogOpen w; trace := trace w |}.
Proof.
  intros Ht Hlt. unfold advance. rewrite Ht.
  assert (isDue (now w + dt) (mkTimer d cb) = false) as Hdue
    by (apply Nat.leb_gt; exact Hlt).
  cbn [filter list_filter]. rewrite !decide_False, decide_True by
    (rewrite Hdue; congruence).
  reflexivity.
Qed.

(** A single queued timer that is due runs and leaves the queue. *)
Lemma advance_fires w d cb dt :
  timers w = [mkTimer d cb] -> (d <= now w + dt)%nat ->
  advance dt w
  = run cb {| ui := ui w; now := now w + dt; timers := [];
              dialogOpen := dialogOpen w; trace := trace w |}.
Proof.
  intros Ht Hle. unfold advance. rewrite Ht.
  assert (isDue (now w + dt) (mkTimer d cb) = true) as Hdue
    by (apply Nat.leb_le; exact Hle).
  cbn [filter list_filter]. rewrite !decide_True, decide_False by
    (rewrite Hdue; congruence).
  reflexivity.
Qed.

Lemma advance_idle w dt :
  timers w = [] ->
  advance dt w
  = {| ui := ui w; now := now w + dt; timers := [];
       dialogOpen := dialogOpen w; trace := trace w |}.
Proof. intros Ht. unfold advance. rewrite Ht. reflexivity. Qed.

Lemma completions_snoc w e tr :
  trace w = tr ++ [e] ->
  completions w
  = (length (filter (fun e => e = OnPaymentComplete) tr)
     + if bool_decide (e = OnPaymentComplete) then 1 else 0)%nat.
Proof.
  intros H. unfold completions. rewrite H, filter_app, length_app.
  cbn [filter list_filter]. unfold bool_decide.
  destruct (decide_rel eq e OnPaymentComplete); reflexivity.
Qed.

Lemma run_settlement w :
  run Settlement w
  = {| ui := setIsProcessing false (ui w); now := now w;
       timers := timers w; dialogOpen := false;
       trace := trace w ++ [approvedToast; OnPaymentComplete; OnClose] |}.
Proof.
  unfold run, onClose, emit, withUi. cbn.
  rewrite <- !app_assoc. reflexivity.
Qed.

Lemma completions_settled w tr :
  trace w = tr ++ [approvedToast; OnPaymentComplete; OnClose] ->
  completions w
  = S (length (filter (fun e => e = OnPaymentComplete) tr)).
Proof.
  intros H. unfold completions. rewrite H, filter_app, length_app.
  change (filter _ [approvedToast; OnPaymentComplete; OnClose])
    with [OnPaymentComplete].
  cbn [length]. lia.
Qed.

Lemma handleSubmit_cases w :
  handleSubmit w = emit incompleteToast w
  \/ handleSubmit w
     = setTimeout Settlement simulatedDelay (withUi (setIsProcessing true) w).
Proof. unfold handleSubmit. destruct (_ && _); [by left | by right]. Qed.

Lemma step_pendingMatchesFlag e w :
  pendingMatchesFlag w -> enabled e w -> pendingMatchesFlag (step e w).
Proof.
  unfold pendingMatchesFlag. intros Hinv Hen.
  destruct e as [field value | method | | | | dt]; cbn [step enabled] in *;
    try exact Hinv.
  - destruct Hen as [_ Hidle]. rewrite Hidle in Hinv.
    destruct (handleSubmit_cases w) as [-> | ->].
    + cbn [emit ui timers]. by rewrite Hidle.
    + cbn [setTimeout withUi ui timers setIsProcessing isProcessing].
      rewrite Hinv. by eexists.
  - destruct (isProcessing (ui w)) eqn:Hflag.
    + destruct Hinv as [d Ht].
      destruct (decide (d <= now w + dt)%nat) as [Hdue | Hnot].
      * rewrite (advance_fires w d Settlement dt Ht Hdue), run_settlement.
        reflexivity.
      * rewrite (advance_pending w d Settlement dt Ht) by lia.
        cbn [ui timers]. rewrite Hflag. by exists d.
    + rewrite (advance_idle w dt Hinv). cbn [ui timers]. by rewrite Hflag.
Qed.

Lemma reachable_pendingMatchesFlag w :
  reachable w -> pendingMatchesFlag w.
Proof.
  induction 1 as [|e w _ IH Hen]; [reflexivity|].
  by apply step_pendingMatchesFlag.
Qed.

(** When the pay button is enabled no settlement is pending. *)
Lemma reachable_idle w :
  reachable w -> isProcessing (ui w) = false -> timers w = [].
Proof.
  intros Hr Hidle. pose proof (reachable_pendingMatchesFlag w Hr) as H.
  unfold pendingMatchesFlag in H. by rewrite Hidle in H.
Qed.

(** C6. A card that breaks any of the four conditions (number of at
    least 16 characters, a holder name, expiry of at least 5, cvc of at
    least 3) is turned away on the spot: the handler only reports
    "Informações incompletas" (the ValidationError).  No timer is queued,
    so nothing is delayed; the component state, the processing flag and
    the dialog are as before; neither the completion callback nor the
    close callback is called, now or later. *)
Theorem C6_invalid_card_rejected w :
  paymentMethod (ui w) = "credit_card" ->
  (length16 (number (cardDetails (ui w))) < 16)%nat
  \/ name (cardDetails (ui w)) = ""
  \/ (length16 (expiry (cardDetails (ui w))) < 5)%nat
  \/ (length16 (cvc (cardDetails (ui w))) < 3)%nat ->
  let w' := handleSubmit w in
  trace w' = trace w ++ [incompleteToast]
  /\ ui w' = ui w
  /\ timers w' = timers w
  /\ now w' = now w
  /\ dialogOpen w' = dialogOpen w
  /\ completions w' = completions w
  /\ (reachable w -> isProcessing (ui w) = false ->
      forall dt, trace (advance dt w') = trace w').
Proof.
  intros Hm Hbad w'. subst w'.
  apply cardRejected_true_iff in Hbad.
  rewrite (handleSubmit_invalid w Hm Hbad).
  repeat split.
  - rewrite (completions_snoc (emit incompleteToast w) incompleteToast
               (trace w) eq_refl).
    unfold completions. rewrite bool_decide_eq_false_2 by discriminate. lia.
  - intros Hr Hidle dt. rewrite advance_idle; [done|].
    exact (reachable_idle w Hr Hidle).
Qed.

Lemma C6_invalid_card_rejected_witness :
  let w := shortCardWorld in
  let w' := handleSubmit w in
  trace w' = trace w ++ [incompleteToast]
  /\ ui w' = ui w
  /\ timers w' = timers w
  /\ now w' = now w
  /\ dialogOpen w' = dialogOpen w
  /\ completions w' = completions w
  /\ (reachable w -> isProcessing (ui w) = false ->
      forall dt, trace (advance dt w') = trace w').
Proof.
  apply (C6_invalid_card_rejected shortCardWorld).
  - reflexivity.
  - left. vm_compute. lia.
Defined.

(** C7. On input that passes (a card meeting the four conditions, or any
    other method, which is not validated), the handler sets the
    processing flag and queues the settlement; until the fixed delay has
    passed nothing is reported; once it has, the approval is reported,
    the completion callback is called exactly once, the dialog is closed
    and the flag cleared, and no later passage of time calls it again.
    The path has no failing branch. *)
Theorem C7_valid_payment_settles w :
  reachable w ->
  enabled Submit w ->
  validInput (ui w) ->
  let w1 := handleSubmit w in
  isProcessing (ui w1) = true
  /\ trace w1 = trace w
  /\ (forall dt, (dt < simulatedDelay)%nat ->
        trace (advance dt w1) = trace w
        /\ isProcessing (ui (advance dt w1)) = true)
  /\ (forall dt, (simulatedDelay <= dt)%nat ->
        let w2 := advance dt w1 in
        trace w2 = trace w ++ [approvedToast; OnPaymentComplete; OnClose]
        /\ completions w2 = S (completions w)
        /\ isProcessing (ui w2) = false
        /\ dialogOpen w2 = false
        /\ forall dt', trace (advance dt' w2) = trace w2).
Proof.
  intros Hr [_ Hidle] Hv w1. subst w1.
  pose proof (reachable_idle w Hr Hidle) as Ht.
  rewrite (handleSubmit_valid w Hv).
  split; [reflexivity|]. split; [reflexivity|]. split.
  - intros dt Hdt.
    rewrite (advance_pending _ (now w + simulatedDelay) Settlement dt).
    + split; reflexivity.
    + cbn [timers setTimeout withUi]. by rewrite Ht.
    + cbn [now setTimeout withUi]. lia.
  - intros dt Hdt w2. subst w2.
    rewrite (advance_fires _ (now w + simulatedDelay) Settlement dt).
    + rewrite run_settlement. cbn [ui now timers dialogOpen trace].
      repeat split. by apply completions_settled.
    + cbn [timers setTimeout withUi]. by rewrite Ht.
    + cbn [now setTimeout withUi]. lia.
Qed.

Lemma cardWorld_reachable : reachable cardWorld.
Proof. repeat (apply reachable_step; [|reflexivity]). constructor. Qed.

Lemma pixWorld_reachable : reachable pixWorld.
Proof. apply reachable_step; [constructor | reflexivity]. Qed.

Lemma sampleCard_valid : validInput (ui cardWorld).
Proof. right. repeat split; vm_compute; try lia. discriminate. Qed.

Lemma pix_valid : validInput (ui pixWorld).
Proof. left. discriminate. Qed.

Lemma C7_valid_payment_settles_witness :
  let w := cardWorld in
  let w1 := handleSubmit w in
  isProcessing (ui w1) = true
  /\ trace w1 = trace w
  /\ (forall dt, (dt < simulatedDelay)%nat ->
        trace (advance dt w1) = trace w
        /\ isProcessing (ui (advance dt w1)) = true)
  /\ (forall dt, (simulatedDelay <= dt)%nat ->
        let w2 := advance dt w1 in
        trace w2 = trace w ++ [approvedToast; OnPaymentComplete; OnClose]
        /\ completions w2 = S (completions w)
        /\ isProcessing (ui w2) = false
        /\ dialogOpen w2 = false
        /\ forall dt', trace (advance dt' w2) = trace w2).
Proof.
  apply (C7_valid_payment_settles cardWorld).
  - exact cardWorld_reachable.
  - split; reflexivity.
  - exact sampleCard_valid.
Defined.

(** C2, as the dialog behaves.  Dismissing the dialog while the
    settlement is pending cancels nothing: the timer stays queued, and
    when the delay has passed it runs as if the dialog were open: it
    reports the approval, calls the completion callback once and calls
    the close callback again. *)
Theorem C2_close_does_not_cancel w dt1 dt2 :
  reachable w ->
  enabled Submit w ->
  validInput (ui w) ->
  (dt1 < simulatedDelay)%nat ->
  (simulatedDelay <= dt1 + dt2)%nat ->
  let closed := dismiss (advance dt1 (handleSubmit w)) in
  let settled := advance dt2 closed in
  dialogOpen closed = false
  /\ trace closed = trace w ++ [OnClose]
  /\ timers closed = [mkTimer (now w + simulatedDelay) Settlement]
  /\ trace settled
     = trace closed ++ [approvedToast; OnPaymentComplete; OnClose]
  /\ completions settled = S (completions closed)
  /\ isProcessing (ui settled) = false.
Proof.
  intros Hr [_ Hidle] Hv H1 H2 closed settled. subst settled closed.
  pose proof (reachable_idle w Hr Hidle) as Ht.
  rewrite (handleSubmit_valid w Hv).
  rewrite (advance_pending _ (now w + simulatedDelay) Settlement dt1);
    [| cbn [timers setTimeout withUi]; by rewrite Ht
     | cbn [now setTimeout withUi]; lia ].
  rewrite (advance_fires _ (now w + simulatedDelay) Settlement dt2);
    [| reflexivity | cbn; lia ].
  rewrite run_settlement.
  cbn [dismiss onClose emit ui now timers dialogOpen trace].
  repeat split.
  by apply completions_settled.
Qed.

Lemma C2_close_does_not_cancel_witness :
  let w := pixWorld in
  let closed := dismiss (advance 500 (handleSubmit w)) in
  let settled := advance 1500 closed in
  dialogOpen closed = false
  /\ trace closed = trace w ++ [OnClose]
  /\ timers closed = [mkTimer (now w + simulatedDelay) Settlement]
  /\ trace settled
     = trace closed ++ [approvedToast; OnPaymentComplete; OnClose]
  /\ completions settled = S (completions closed)
  /\ isProcessing (ui settled) = false.
Proof.
  apply (C2_close_does_not_cancel pixWorld 500 1500).
  - exact pixWorld_reachable.
  - split; reflexivity.
  - exact pix_valid.
  - unfold simulatedDelay. lia.
  - unfold simulatedDelay. lia.
Defined.

(** C2 as stated fails: the dialog is dismissed half a second after an
    instant-transfer payment was submitted; when the settlement resolves
    a second and a half later the trace grows, and the completion
    callback has been invoked. *)
Lemma C2_counterexample :
  let closed := dismiss (advance 500 (handleSubmit pixWorld)) in
  let settled := advance 1500 closed in
  dialogOpen closed = false
  /\ trace closed = [OnClose]
  /\ trace settled = [OnClose; approvedToast; OnPaymentComplete; OnClose]
  /\ trace settled <> trace closed
  /\ completions closed = 0%nat
  /\ completions settled = 1%nat.
Proof.
  cbv zeta. repeat split; try reflexivity.
  vm_compute. discriminate.
Qed.

(** *** Further properties of the dialog *)

(** X11. Typing into the form: the four inputs do not interfere.  A
    change stores the typed value in its input and leaves the other
    three inputs, the payment method and the processing flag as they
    were; changes to two different inputs commute, and of two changes
    to the same input the later one stands. *)
Theorem handleInputChange_composes field1 field2 value1 value2 st :
  In field1 ["number"; "name"; "expiry"; "cvc"] ->
  In field2 ["number"; "name"; "expiry"; "cvc"] ->
  inputValue field1 (cardDetails (handleInputChange field1 value1 st))
  = value1
  /\ (field2 <> field1 ->
      inputValue field2 (cardDetails (handleInputChange field1 value1 st))
      = inputValue field2 (cardDetails st))
  /\ paymentMethod (handleInputChange field1 value1 st) = paymentMethod st
  /\ isProcessing (handleInputChange field1 value1 st) = isProcessing st
  /\ (field1 <> field2 ->
      handleInputChange field1 value1 (handleInputChange field2 value2 st)
      = handleInputChange field2 value2 (handleInputChange field1 value1 st))
  /\ handleInputChange field1 value1 (handleInputChange field1 value2 st)
     = handleInputChange field1 value1 st.
Proof.
  intros H1 H2. cbn in H1, H2.
  destruct H1 as [<- | [<- | [<- | [<- | []]]]];
    destruct H2 as [<- | [<- | [<- | [<- | []]]]];
    repeat split; try reflexivity; intros Hne; try reflexivity;
    by destruct Hne.
Qed.

Lemma handleInputChange_composes_witness :
  inputValue "cvc" (cardDetails (handleInputChange "cvc" "123" initial))
  = "123"
  /\ inputValue "name" (cardDetails (handleInputChange "cvc" "123" initial))
     = inputValue "name" (cardDetails initial)
  /\ handleInputChange "cvc" "123" (handleInputChange "name" "A" initial)
     = handleInputChange "name" "A" (handleInputChange "cvc" "123" initial).
Proof.
  destruct (handleInputChange_composes "cvc" "name" "123" "A" initial
              ltac:(cbn; tauto) ltac:(cbn; tauto))
    as (Hstored & Hother & _ & _ & Hcomm & _).
  split; [exact Hstored|]. split.
  - apply Hother. discriminate.
  - apply Hcomm. discriminate.
Defined.

(** [.length] counts UTF-16 code units, not bytes: an accented letter
    or the euro sign is one unit, a character beyond the basic plane is
    two, and on ASCII text it is the number of characters. *)
Lemma length16_samples :
  length16 "éééééééé" = 8%nat
  /\ length16 "€" = 1%nat
  /\ length16 "😀" = 2%nat
  /\ length16 "4111111111111111" = 16%nat
  /\ cardRejected (mkCard "éééééééé" "A" "12/30" "123") = true
  /\ cardRejected (mkCard "4111111111111111" "A" "12/30" "€") = true.
Proof. repeat split. Qed.

Lemma history_reachable es w : history es w -> reachable w.
Proof.
  induction 1 as [|es e w _ IH Hen]; [constructor|].
  by apply reachable_step.
Qed.

Lemma step_pendingDueSoon e w :
  reachable w -> pendingDueSoon w -> enabled e w ->
  pendingDueSoon (step e w).
Proof.
  intros Hr Hsoon Hen.
  pose proof (reachable_pendingMatchesFlag w Hr) as Hflag.
  unfold pendingMatchesFlag in Hflag. unfold pendingDueSoon in *.
  destruct e as [field value | method | | | | dt]; cbn [step enabled] in *;
    try exact Hsoon.
  - destruct Hen as [_ Hidle]. rewrite Hidle in Hflag.
    destruct (handleSubmit_cases w) as [-> | ->]; [exact Hsoon|].
    cbn [setTimeout withUi timers now]. rewrite Hflag.
    intros tm [<- | []]. reflexivity.
  - destruct (isProcessing (ui w)).
    + destruct Hflag as [d Ht].
      destruct (decide (d <= now w + dt)%nat) as [Hdue | Hnot].
      * rewrite (advance_fires w d Settlement dt Ht Hdue), run_settlement.
        intros tm [].
      * rewrite (advance_pending w d Settlement dt Ht) by lia.
        cbn [timers now]. intros tm Htm.
        rewrite <- Ht in Htm. specialize (Hsoon tm Htm). lia.
    + rewrite (advance_idle w dt Hflag). intros tm [].
Qed.

Lemma reachable_pendingDueSoon w : reachable w -> pendingDueSoon w.
Proof.
  induction 1 as [|e w Hr IH Hen]; [intros tm []|].
  by apply step_pendingDueSoon.
Qed.

(** X12. Processing always ends: from any state the dialog can be in, once
    the simulated delay has elapsed no settlement is pending and the
    pay button is enabled again. *)
Theorem processing_ends_within_delay w dt :
  reachable w ->
  (simulatedDelay <= dt)%nat ->
  isProcessing (ui (advance dt w)) = false
  /\ timers (advance dt w) = [].
Proof.
  intros Hr Hdt.
  pose proof (reachable_pendingMatchesFlag w Hr) as Hflag.
  pose proof (reachable_pendingDueSoon w Hr) as Hsoon.
  unfold pendingMatchesFlag in Hflag.
  destruct (isProcessing (ui w)) eqn:Hp.
  - destruct Hflag as [d Ht].
    assert (d <= now w + dt)%nat as Hdue.
    { specialize (Hsoon (mkTimer d Settlement)). rewrite Ht in Hsoon.
      cbn in Hsoon. specialize (Hsoon (or_introl eq_refl)). lia. }
    rewrite (advance_fires w d Settlement dt Ht Hdue), run_settlement.
    by split.
  - rewrite (advance_idle w dt Hflag). by split.
Qed.

Lemma cardSubmitted_reachable : reachable cardSubmitted.
Proof.
  apply reachable_step; [exact cardWorld_reachable | by split].
Qed.

Lemma processing_ends_within_delay_witness :
  isProcessing (ui cardSubmitted) = true
  /\ isProcessing (ui (advance 2000 cardSubmitted)) = false
  /\ timers (advance 2000 cardSubmitted) = [].
Proof.
  split; [reflexivity|].
  apply (processing_ends_within_delay cardSubmitted 2000).
  - exact cardSubmitted_reachable.
  - unfold simulatedDelay. lia.
Defined.

Lemma submits_snoc es e :
  submits (es ++ [e]) = (submits es + if isSubmit e then 1 else 0)%nat.
Proof.
  unfold submits. rewrite List.filter_app, length_app. cbn.
  by destruct (isSubmit e).
Qed.

(** X13. No completion without a press of the button: in every run of the
    dialog the completion callback has been called, and settlements are
    still pending, at most as often as the pay button was pressed. *)
Theorem completions_bounded_by_submits es w :
  history es w ->
  (completions w + length (timers w) <= submits es)%nat.
Proof.
  induction 1 as [|es e w Hh IH Hen]; [reflexivity|].
  pose proof (reachable_pendingMatchesFlag w (history_reachable es w Hh))
    as Hflag.
  unfold pendingMatchesFlag in Hflag.
  rewrite submits_snoc.
  destruct e as [field value | method | | | | dt];
    cbn [step enabled isSubmit] in *.
  - unfold withUi, completions in *. cbn [trace timers]. lia.
  - unfold withUi, completions in *. cbn [trace timers]. lia.
  - destruct (handleSubmit_cases w) as [-> | ->].
    + rewrite (completions_snoc (emit incompleteToast w) incompleteToast
                 (trace w) eq_refl).
      rewrite bool_decide_eq_false_2 by discriminate.
      unfold completions in IH. unfold emit. cbn [timers]. lia.
    + unfold setTimeout, withUi, completions in *.
      cbn [trace timers]. rewrite length_app. cbn [length]. lia.
  - rewrite (completions_snoc (dismiss w) OnClose (trace w) eq_refl).
    rewrite bool_decide_eq_false_2 by discriminate.
    unfold completions in IH. unfold dismiss, onClose, emit.
    cbn [timers]. lia.
  - unfold reopen, completions in *. cbn [trace timers]. lia.
  - destruct (isProcessing (ui w)).
    + destruct Hflag as [d Ht]. rewrite Ht in IH. cbn [length] in IH.
      destruct (decide (d <= now w + dt)%nat) as [Hdue | Hnot].
      * rewrite (advance_fires w d Settlement dt Ht Hdue), run_settlement.
        erewrite (completions_settled _ (trace w)) by reflexivity.
        unfold completions in IH. cbn [timers length]. lia.
      * rewrite (advance_pending w d Settlement dt Ht) by lia.
        unfold completions in *. cbn [trace timers length]. lia.
    + rewrite (advance_idle w dt Hflag).
      rewrite Hflag in IH. unfold completions in *.
      cbn [trace timers length] in *. lia.
Qed.

Lemma completions_bounded_by_submits_witness :
  (completions (step (Elapse 2000) cardSubmitted)
   + length (timers (step (Elapse 2000) cardSubmitted))
   <= submits [ TypeField "number" "4111111111111111";
                TypeField "name" "A";
                TypeField "expiry" "12/30";
                TypeField "cvc" "123";
                Submit; Elapse 2000 ])%nat.
Proof.
  apply (completions_bounded_by_submits
           [ TypeField "number" "4111111111111111";
             TypeField "name" "A";
             TypeField "expiry" "12/30";
             TypeField "cvc" "123";
             Submit; Elapse 2000 ]).
  apply (history_step
           [ TypeField "number" "4111111111111111"; TypeField "name" "A";
             TypeField "expiry" "12/30"; TypeField "cvc" "123"; Submit ]
           (Elapse 2000) cardSubmitted); [|exact I].
  apply (history_step
           [ TypeField "number" "4111111111111111"; TypeField "name" "A";
             TypeField "expiry" "12/30"; TypeField "cvc" "123" ]
           Submit cardWorld); [|by split].
  apply (history_step
           [ TypeField "number" "4111111111111111"; TypeField "name" "A";
             TypeField "expiry" "12/30" ]
           (TypeField "cvc" "123")); [|reflexivity].
  apply (history_step
           [ TypeField "number" "4111111111111111"; TypeField "name" "A" ]
           (TypeField "expiry" "12/30")); [|reflexivity].
  apply (history_step [ TypeField "number" "4111111111111111" ]
           (TypeField "name" "A")); [|reflexivity].
  apply (history_step [] (TypeField "number" "4111111111111111") start);
    [constructor | reflexivity].
Defined.

End Payment.

(** ** Plan selection *)

Section Selection.
Import PlanSelection.

Lemma currentPlan_falsy st :
  truthy (selectedPlan st) = false -> currentPlan st = None.
Proof.
  unfold currentPlan. destruct (selectedPlan st); [|reflexivity].
  by intros ->.
Qed.

Lemma currentPlan_truthy st id :
  selectedPlan st = Some id -> id <> "" ->
  currentPlan st = findPlan (plans st) id.
Proof.
  intros Hs Hne. unfold currentPlan. rewrite Hs. cbn.
  apply String.eqb_neq in Hne. by rewrite Hne.
Qed.

Lemma truthy_Some id : truthy (Some id) = true <-> id <> "".
Proof.
  cbn. rewrite negb_true_iff. apply String.eqb_neq.
Qed.

(** With a selection the first effect is idle. *)
Lemma effectDefaultPlan_truthy snap st :
  truthy (selectedPlan snap) = true -> effectDefaultPlan snap st = st.
Proof.
  intros H. unfold effectDefaultPlan. rewrite H.
  by destruct (plans snap).
Qed.

(** Without one the second effect is idle. *)
Lemma effectFreeDuration_falsy snap st :
  truthy (selectedPlan snap) = false -> effectFreeDuration snap st = st.
Proof.
  intros H. unfold effectFreeDuration. by rewrite currentPlan_falsy.
Qed.

Lemma effectFreeDuration_plans snap st :
  plans (effectFreeDuration snap st) = plans st.
Proof.
  unfold effectFreeDuration.
  destruct (currentPlan snap); [|reflexivity].
  by destruct (_ && _).
Qed.

Lemma effectFreeDuration_selectedPlan snap st :
  selectedPlan (effectFreeDuration snap st) = selectedPlan st.
Proof.
  unfold effectFreeDuration.
  destruct (currentPlan snap); [|reflexivity].
  by destruct (_ && _).
Qed.

Lemma effectFreeDuration_duration snap st :
  selectedDuration (effectFreeDuration snap st) = selectedDuration st
  \/ selectedDuration (effectFreeDuration snap st) = "1dia".
Proof.
  unfold effectFreeDuration.
  destruct (currentPlan snap); [|by left].
  destruct (_ && _); [by right | by left].
Qed.

Lemma effectDefaultPlan_plans snap st :
  plans (effectDefaultPlan snap st) = plans st.
Proof.
  unfold effectDefaultPlan. destruct (plans snap); [reflexivity|].
  by destruct (negb _).
Qed.

Lemma effectDefaultPlan_duration snap st :
  selectedDuration (effectDefaultPlan snap st) = selectedDuration st.
Proof.
  unfold effectDefaultPlan. destruct (plans snap); [reflexivity|].
  by destruct (negb _).
Qed.

Lemma runEffects_plans st : plans (runEffects st) = plans st.
Proof.
  unfold runEffects.
  by rewrite effectFreeDuration_plans, effectDefaultPlan_plans.
Qed.

Lemma runEffects_duration st :
  selectedDuration (runEffects st) = selectedDuration st
  \/ selectedDuration (runEffects st) = "1dia".
Proof.
  unfold runEffects.
  destruct (effectFreeDuration_duration st (effectDefaultPlan st st))
    as [H | H]; [left | by right].
  by rewrite H, effectDefaultPlan_duration.
Qed.

(** A pass over a state with a selection keeps the selection and pins
    the duration of a free plan. *)
Lemma runEffects_truthy st :
  truthy (selectedPlan st) = true ->
  selectedPlan (runEffects st) = selectedPlan st
  /\ freePinned (runEffects st).
Proof.
  intros Ht. unfold runEffects.
  rewrite (effectDefaultPlan_truthy st st Ht).
  split; [apply effectFreeDuration_selectedPlan|].
  intros p Hp Hfree. revert Hp.
  unfold effectFreeDuration.
  destruct (currentPlan st) as [q|] eqn:Hq.
  - destruct ((plan_price q =? 0)%Z
              && negb (String.eqb (selectedDuration st) "1dia")) eqn:Hc.
    + reflexivity.
    + rewrite Hq. intros [= ->].
      apply Z.eqb_eq in Hfree. rewrite Hfree in Hc. cbn in Hc.
      apply negb_false_iff in Hc. by apply String.eqb_eq in Hc.
  - by rewrite Hq.
Qed.

(** A pass over a state without a selection selects the first plan of
    the catalog, if there is one. *)
Lemma runEffects_falsy st :
  truthy (selectedPlan st) = false ->
  runEffects st
  = match plans st with
    | first :: _ => setSelectedPlan (plan_id first) st
    | [] => st
    end.
Proof.
  intros Hf. unfold runEffects.
  rewrite (effectFreeDuration_falsy st _ Hf).
  unfold effectDefaultPlan. rewrite Hf. by destruct (plans st).
Qed.

(** Mounting the page runs the effects once; they find nothing to do. *)
Lemma initial_settled : settle initial = initial.
Proof. reflexivity. Qed.

Lemma settle_plans st : plans (settle st) = plans st.
Proof.
  unfold settle. destruct (sameSelectedPlan _ _);
    by rewrite ?runEffects_plans.
Qed.

Lemma settle_duration st :
  selectedDuration (settle st) = selectedDuration st
  \/ selectedDuration (settle st) = "1dia".
Proof.
  unfold settle. destruct (sameSelectedPlan _ _).
  - apply runEffects_duration.
  - destruct (runEffects_duration (runEffects st)) as [H | H];
      [| by right].
    rewrite H. apply runEffects_duration.
Qed.

(** Once the effects have settled, a free current plan has duration
    ["1dia"]. *)
Lemma settle_freePinned st : freePinned (settle st).
Proof.
  unfold settle.
  destruct (truthy (selectedPlan st)) eqn:Ht.
  - destruct (runEffects_truthy st Ht) as [Hs Hp].
    unfold sameSelectedPlan. rewrite bool_decide_eq_true_2 by done.
    exact Hp.
  - rewrite (runEffects_falsy st Ht).
    destruct (plans st) as [|first rest] eqn:Hps.
    + unfold sameSelectedPlan. rewrite bool_decide_eq_true_2 by done.
      intros p Hp. by rewrite (currentPlan_falsy st Ht) in Hp.
    + destruct (sameSelectedPlan st (setSelectedPlan (plan_id first) st))
        eqn:Hsame.
      * apply bool_decide_eq_true_1 in Hsame.
        intros p Hp. rewrite currentPlan_falsy in Hp; [done|].
        by rewrite <- Hsame.
      * destruct (truthy (Some (plan_id first))) eqn:Hfirst.
        -- by apply runEffects_truthy.
        -- rewrite runEffects_falsy by exact Hfirst.
           cbn [plans setSelectedPlan]. rewrite Hps.
           intros p Hp. by rewrite currentPlan_falsy in Hp.
Qed.

(** No third pass is due: another pass would leave [selectedPlan]
    alone. *)
Lemma settle_stable st :
  selectedPlan (runEffects (settle st)) = selectedPlan (settle st).
Proof.
  unfold settle.
  destruct (truthy (selectedPlan st)) eqn:Ht.
  - destruct (runEffects_truthy st Ht) as [Hs _].
    unfold sameSelectedPlan. rewrite bool_decide_eq_true_2 by done.
    apply runEffects_truthy. by rewrite Hs.
  - rewrite (runEffects_falsy st Ht).
    destruct (plans st) as [|first rest] eqn:Hps.
    + unfold sameSelectedPlan. rewrite bool_decide_eq_true_2 by done.
      by rewrite runEffects_falsy, Hps.
    + assert (forall s, plans s = first :: rest ->
                selectedPlan s = Some (plan_id first) ->
                selectedPlan (runEffects s) = selectedPlan s) as Hfix.
      { intros s Hp Hsel.
        destruct (truthy (selectedPlan s)) eqn:Hts.
        - by apply runEffects_truthy.
        - rewrite runEffects_falsy, Hp by done. by rewrite Hsel. }
      destruct (sameSelectedPlan st (setSelectedPlan (plan_id first) st)).
      * by apply Hfix.
      * apply Hfix.
        -- by rewrite runEffects_plans.
        -- by rewrite Hfix.
Qed.

Lemma findPlan_Some ps id p :
  findPlan ps id = Some p -> In p ps /\ plan_id p = id.
Proof.
  intros H. apply List.find_some in H as [Hin Heq].
  split; [exact Hin | by apply String.eqb_eq].
Qed.

Lemma plan_id_unique ps p q :
  NoDup (map plan_id ps) -> In p ps -> In q ps ->
  plan_id p = plan_id q -> p = q.
Proof.
  induction ps as [|a ps IH]; cbn; [done|].
  intros Hnd Hp Hq Heq. apply NoDup_cons in Hnd as [Hnotin Hnd].
  assert (forall r, In r ps -> plan_id r <> plan_id a) as Hfresh.
  { intros r Hr Hra. apply Hnotin. rewrite <- Hra.
    apply list_elem_of_In, in_map, Hr. }
  destruct Hp as [<- | Hp], Hq as [<- | Hq]; auto.
  - exfalso. by apply (Hfresh q Hq).
  - exfalso. by apply (Hfresh p Hp).
Qed.

Lemma available_free p :
  plan_price p = 0%Z -> keys (getAvailableDurations p) = ["1dia"].
Proof. intros H. unfold getAvailableDurations. by rewrite H. Qed.

Lemma available_paid p :
  plan_price p <> 0%Z -> getAvailableDurations p = durationOptions.
Proof.
  intros H. unfold getAvailableDurations.
  apply Z.eqb_neq in H. by rewrite H.
Qed.

Lemma available_known p d :
  In d (keys (getAvailableDurations p)) -> In d (keys durationOptions).
Proof.
  unfold getAvailableDurations. destruct (plan_price p =? 0)%Z; [|done].
  cbn. intros [<- | []]. by left.
Qed.

(** A radio item on offer belongs to a plan of the catalog that carries
    the selected id. *)
Lemma offered_elim st d :
  In d (offeredDurations st) ->
  exists id q,
    selectedPlan st = Some id /\ id <> "" /\ In q (plans st)
    /\ plan_id q = id /\ In d (keys (getAvailableDurations q)).
Proof.
  unfold offeredDurations.
  destruct (selectedPlan st) as [id|]; [|done].
  destruct (truthy (Some id)) eqn:Ht; [|done].
  intros H. apply in_concat in H as (l & Hl & Hd).
  apply in_map_iff in Hl as (q & <- & Hq).
  destruct (String.eqb (plan_id q) id) eqn:E; [|done].
  exists id, q. repeat split; try done.
  - by apply truthy_Some.
  - by apply String.eqb_eq.
Qed.

Lemma step_invariant e st :
  invariant st -> enabled e st -> invariant (step e st).
Proof.
  intros (Hnd & Hdur & Hpin) Hen.
  destruct e as [ps | id | d]; cbn [step enabled] in *.
  - split; [|split].
    + by rewrite settle_plans.
    + destruct (settle_duration (setPlans ps st)) as [-> | ->];
        [exact Hdur | by left].
    + apply settle_freePinned.
  - destruct (bool_decide (selectedPlan st = Some id)); [done|].
    split; [|split].
    + by rewrite settle_plans.
    + destruct (settle_duration (setSelectedPlan id st)) as [-> | ->];
        [exact Hdur | by left].
    + apply settle_freePinned.
  - destruct (offered_elim st d Hen)
      as (id & q & Hsel & Hne & Hq & Hid & Hd).
    split; [exact Hnd|]. split; [by apply (available_known q)|].
    intros p Hp Hfree. cbn [selectedDuration setSelectedDuration].
    rewrite (currentPlan_truthy _ id) in Hp by done.
    cbn [plans setSelectedDuration] in Hp.
    apply findPlan_Some in Hp as [Hpin' Hpid].
    assert (p = q) as <-
      by (apply (plan_id_unique (plans st)); congruence).
    rewrite (available_free p Hfree) in Hd. by destruct Hd as [<- | []].
Qed.

Lemma initial_invariant : invariant initial.
Proof.
  split; [constructor|]. split; [cbn; tauto|]. intros p Hp. discriminate Hp.
Qed.

Lemma reachable_invariant st : reachable st -> invariant st.
Proof.
  induction 1 as [|e st _ IH Hen].
  - exact initial_invariant.
  - by apply step_invariant.
Qed.

(** C4. In every state the page can reach, a current plan with base
    price 0 has duration "1dia".  In particular, clicking a plan of
    price 0 leaves the duration at "1dia" whatever it was before
    ("3meses" included), and the durations on offer for a plan of
    price 0 are "1dia" alone.  (The current plan is the one [find]
    returns for a non-empty selected id; states are taken after the
    effects that an event triggers have run.) *)
Theorem C4_free_plan_pins_duration st :
  reachable st ->
  (forall p, currentPlan st = Some p -> plan_price p = 0%Z ->
             selectedDuration st = "1dia")
  /\ (forall id p,
        enabled (ClickPlan id) st -> id <> "" ->
        findPlan (plans st) id = Some p -> plan_price p = 0%Z ->
        selectedDuration (step (ClickPlan id) st) = "1dia")
  /\ (forall p, plan_price p = 0%Z ->
        keys (getAvailableDurations p) = ["1dia"]).
Proof.
  intros Hr. split; [|split].
  - apply (reachable_invariant st Hr).
  - intros id p Hen Hne Hfind Hfree.
    assert (reachable (step (ClickPlan id) st)) as Hr'
      by (by apply reachable_step).
    destruct (reachable_invariant _ Hr') as (_ & _ & Hpin).
    apply (Hpin p); [|exact Hfree].
    assert (selectedPlan (step (ClickPlan id) st) = Some id
            /\ plans (step (ClickPlan id) st) = plans st) as [Hs Hp].
    { cbn [step]. destruct (bool_decide (selectedPlan st = Some id)) eqn:E.
      - by apply bool_decide_eq_true_1 in E.
      - rewrite settle_plans. split; [|done].
        unfold settle. 
        assert (truthy (selectedPlan (setSelectedPlan id st)) = true) as Ht
          by (by apply truthy_Some).
        destruct (runEffects_truthy _ Ht) as [Hsame _].
        unfold sameSelectedPlan.
        rewrite bool_decide_eq_true_2 by done. exact Hsame. }
    rewrite (currentPlan_truthy _ id Hs Hne). by rewrite Hp.
  - exact available_free.
Qed.

Lemma paidThreeMonths_reachable : reachable paidThreeMonths.
Proof.
  unfold paidThreeMonths.
  apply reachable_step; [apply reachable_step; [constructor|] |].
  - cbn. compute_done.
  - vm_compute. tauto.
Qed.

Lemma C4_free_plan_pins_duration_witness :
  selectedDuration paidThreeMonths = "3meses"
  /\ findPlan (plans paidThreeMonths) "p-free" = Some gratis
  /\ selectedDuration (step (ClickPlan "p-free") paidThreeMonths) = "1dia".
Proof.
  split; [reflexivity|]. split; [reflexivity|].
  apply (proj1 (proj2 (C4_free_plan_pins_duration paidThreeMonths
                         paidThreeMonths_reachable))
           "p-free" gratis).
  - vm_compute. tauto.
  - discriminate.
  - reflexivity.
  - reflexivity.
Defined.

Lemma property_known {A} k (obj : list (string * A)) :
  In k (keys obj) -> exists v, property k obj = Some v.
Proof.
  induction obj as [|[k' v'] obj IH]; cbn; [done|].
  intros [-> | Hin].
  - rewrite String.eqb_refl. by exists v'.
  - destruct (String.eqb k' k); [by exists v' | by apply IH].
Qed.

(** C9. Continue persists and navigates exactly when a plan is selected.
    Without a selection it returns at once: localStorage is untouched
    and nothing is reported.  With one it writes the selected id under
    "selectedPlan" and the duration under "selectedDuration", replacing
    what was there and touching no other key, and then navigates to the
    verification page. *)
Theorem C9_continue_persists_iff_selected st
    (localStorage : gmap string string) :
  reachable st ->
  let '(stored, effects, completion) := handleContinue st localStorage in
  completion = Returned
  /\ if truthy (selectedPlan st)
     then stored !! "selectedPlan" = selectedPlan st
          /\ stored !! "selectedDuration" = Some (selectedDuration st)
          /\ (forall key, key <> "selectedPlan" ->
                key <> "selectedDuration" ->
                stored !! key = localStorage !! key)
          /\ exists description,
               effects = [ Toast "Plano selecionado" description;
                           Navigate "/verificacao" ]
     else stored = localStorage /\ effects = [].
Proof.
  intros Hr.
  destruct (reachable_invariant st Hr) as (_ & Hdur & _).
  destruct (property_known _ _ Hdur) as [d Hd].
  unfold handleContinue.
  destruct (selectedPlan st) as [id|] eqn:Hsel; [|done].
  destruct (truthy (Some id)) eqn:Ht; [|done].
  rewrite Hd. split; [reflexivity|].
  split; [|split; [|split]].
  - rewrite lookup_insert_ne by done. by rewrite lookup_insert_eq.
  - by rewrite lookup_insert_eq.
  - intros key H1 H2. by rewrite !lookup_insert_ne.
  - by eexists.
Qed.

Lemma C9_continue_persists_iff_selected_witness :
  let '(stored, effects, completion) :=
    handleContinue paidThreeMonths
      {[ "selectedPlan" := "p-old"; "theme" := "dark" ]} in
  completion = Returned
  /\ if truthy (selectedPlan paidThreeMonths)
     then stored !! "selectedPlan" = selectedPlan paidThreeMonths
          /\ stored !! "selectedDuration"
             = Some (selectedDuration paidThreeMonths)
          /\ (forall key, key <> "selectedPlan" ->
                key <> "selectedDuration" ->
                stored !! key
                = ({[ "selectedPlan" := "p-old"; "theme" := "dark" ]}
                     : gmap string string) !! key)
          /\ exists description,
               effects = [ Toast "Plano selecionado" description;
                           Navigate "/verificacao" ]
     else stored = {[ "selectedPlan" := "p-old"; "theme" := "dark" ]}
          /\ effects = [].
Proof.
  apply (C9_continue_persists_iff_selected paidThreeMonths
           {[ "selectedPlan" := "p-old"; "theme" := "dark" ]}).
  exact paidThreeMonths_reachable.
Defined.

Lemma currentPlan_ext st st' :
  plans st' = plans st -> selectedPlan st' = selectedPlan st ->
  currentPlan st' = currentPlan st.
Proof. intros Hp Hs. unfold currentPlan. by rewrite Hp, Hs. Qed.

(** While the current plan is not free the second effect is idle. *)
Lemma effectFreeDuration_paid st :
  (forall p, currentPlan st = Some p -> plan_price p <> 0%Z) ->
  effectFreeDuration st st = st.
Proof.
  intros Hpaid. unfold effectFreeDuration.
  destruct (currentPlan st) as [q|]; [|reflexivity].
  specialize (Hpaid q eq_refl). apply Z.eqb_neq in Hpaid.
  by rewrite Hpaid.
Qed.

(** Settling leaves the duration alone when the plan that ends up
    current is not free. *)
Lemma settle_duration_paid st :
  (forall p, currentPlan (settle st) = Some p -> plan_price p <> 0%Z) ->
  selectedDuration (settle st) = selectedDuration st.
Proof.
  assert (forall s, truthy (selectedPlan s) = true ->
            (forall p, currentPlan (runEffects s) = Some p ->
                       plan_price p <> 0%Z) ->
            runEffects s = s) as Hidle.
  { intros s Ht Hpaid. revert Hpaid. unfold runEffects.
    rewrite (effectDefaultPlan_truthy s s Ht). intros Hpaid.
    apply effectFreeDuration_paid. intros p Hp. apply Hpaid.
    rewrite <- Hp. apply currentPlan_ext.
    - apply effectFreeDuration_plans.
    - apply effectFreeDuration_selectedPlan. }
  unfold settle.
  destruct (truthy (selectedPlan st)) eqn:Ht.
  - destruct (runEffects_truthy st Ht) as [Hs _].
    unfold sameSelectedPlan. rewrite bool_decide_eq_true_2 by done.
    intros Hpaid. by rewrite (Hidle st Ht Hpaid).
  - rewrite (runEffects_falsy st Ht).
    destruct (plans st) as [|first rest] eqn:Hps.
    + unfold sameSelectedPlan. by rewrite bool_decide_eq_true_2.
    + destruct (sameSelectedPlan st (setSelectedPlan (plan_id first) st));
        [reflexivity|].
      destruct (truthy (Some (plan_id first))) eqn:Hfirst.
      * intros Hpaid.
        by rewrite (Hidle (setSelectedPlan (plan_id first) st) Hfirst Hpaid).
      * intros _. rewrite runEffects_falsy by exact Hfirst.
        cbn [plans setSelectedPlan]. by rewrite Hps.
Qed.

Lemma neverFree_untouched st : neverFree st -> durationUntouched st.
Proof.
  induction 1 as [|e st _ IH Hen He _]; [constructor|].
  by apply untouched_step.
Qed.

Lemma untouched_reachable st : durationUntouched st -> reachable st.
Proof.
  induction 1 as [|e st _ IH Hen _]; [constructor|].
  by apply reachable_step.
Qed.

Lemma neverFree_duration st : neverFree st -> selectedDuration st = "3dias".
Proof.
  induction 1 as [|e st _ IH Hen He Hpaid]; [reflexivity|].
  destruct e as [ps | id | d]; [| |discriminate He]; cbn [step] in *.
  - by rewrite settle_duration_paid.
  - destruct (bool_decide (selectedPlan st = Some id)); [exact IH|].
    by rewrite settle_duration_paid.
Qed.

(** C10, as the page behaves.  Before any interaction, and before the
    catalog has loaded, the selected duration is "3dias", the option of
    multiplier 1, which is not the shortest one.  A catalog whose first
    plan has a non-zero base price makes that plan the selection and
    leaves the duration at "3dias".  The duration stays "3dias" for a
    buyer who never touches the duration choice as long as no free plan
    has ever been the current plan: continue, when a plan is selected,
    then persists "3dias", and the payable amount is the base price of
    the current plan.  (Once a free plan has been current the duration
    is "1dia" and is not restored.) *)
Theorem C10_default_duration_while_paid st
    (localStorage : gmap string string) :
  neverFree st ->
  (selectedDuration initial = "3dias"
   /\ selectedPlan initial = None
   /\ (exists d, property "3dias" durationOptions = Some d
                 /\ (multiplier d == 1)%Q)
   /\ (exists d, property "1dia" durationOptions = Some d
                 /\ (multiplier d < 1)%Q))
  /\ (forall first rest,
        plan_price first <> 0%Z ->
        NoDup (map plan_id (first :: rest)) ->
        let loaded := step (CatalogUpdate (first :: rest)) initial in
        neverFree loaded
        /\ selectedPlan loaded = Some (plan_id first)
        /\ selectedDuration loaded = "3dias")
  /\ selectedDuration st = "3dias"
  /\ (truthy (selectedPlan st) = true ->
      exists id description,
        selectedPlan st = Some id
        /\ handleContinue st localStorage
           = (<["selectedDuration" := "3dias"]>
                (<["selectedPlan" := id]> localStorage),
              [ Toast "Plano selecionado" description;
                Navigate "/verificacao" ],
              Returned))
  /\ (forall p, currentPlan st = Some p ->
        payableAmount st = Some (inject_Z (plan_price p))).
Proof.
  intros Hnf.
  pose proof (neverFree_duration st Hnf) as Hdur.
  split; [|split; [|split; [|split]]].
  - split; [reflexivity|]. split; [reflexivity|].
    split; eexists; split; reflexivity.
  - intros first rest Hpaid Hnd loaded.
    assert (selectedPlan loaded = Some (plan_id first)
            /\ plans loaded = first :: rest) as [Hsel Hplans].
    { subst loaded. cbn [step]. rewrite settle_plans. split; [|reflexivity].
      unfold settle.
      rewrite (runEffects_falsy (setPlans (first :: rest) initial) eq_refl).
      cbn [plans setPlans]. unfold sameSelectedPlan.
      rewrite bool_decide_eq_false_2 by discriminate.
      destruct (truthy (Some (plan_id first))) eqn:Ht.
      - by apply runEffects_truthy.
      - by rewrite runEffects_falsy. }
    assert (neverFree loaded) as Hloaded.
    { apply neverFree_step; [constructor | exact Hnd | reflexivity |].
      fold loaded. intros p Hp.
      unfold currentPlan in Hp. rewrite Hsel, Hplans in Hp.
      destruct (truthy (Some (plan_id first))); [|discriminate Hp].
      cbn [findPlan List.find] in Hp. rewrite String.eqb_refl in Hp.
      by injection Hp as <-. }
    split; [exact Hloaded|]. split; [exact Hsel|].
    exact (neverFree_duration loaded Hloaded).
  - exact Hdur.
  - intros Ht. unfold handleContinue. rewrite Hdur.
    destruct (selectedPlan st) as [id|]; [|discriminate Ht].
    rewrite Ht. cbn [property durationOptions String.eqb Ascii.eqb Bool.eqb].
    by exists id; eexists.
  - intros p Hp. unfold payableAmount. rewrite Hp, Hdur.
    cbn [property durationOptions String.eqb Ascii.eqb Bool.eqb multiplier].
    destruct (Z.eq_dec (plan_price p) 0%Z) as [-> | Hne]; [reflexivity|].
    rewrite calculatePrice_nonzero.
    + by rewrite Math_round_integer.
    + intros H. unfold Qeq in H. cbn in H. lia.
Qed.

Lemma catalogLoaded_neverFree :
  neverFree (step (CatalogUpdate [rubi; gratis]) initial).
Proof.
  apply neverFree_step; [constructor | cbn; compute_done | reflexivity |].
  intros p. vm_compute. intros [= <-]. discriminate.
Qed.

Lemma C10_default_duration_while_paid_witness :
  let st := step (CatalogUpdate [rubi; gratis]) initial in
  selectedDuration st = "3dias"
  /\ fst (fst (handleContinue st ∅)) !! "selectedDuration" = Some "3dias"
  /\ payableAmount st = Some (inject_Z 100).
Proof.
  destruct (C10_default_duration_while_paid
              (step (CatalogUpdate [rubi; gratis]) initial) ∅
              catalogLoaded_neverFree)
    as (_ & _ & Hd & Hc & Hp).
  cbv zeta. split; [exact Hd|]. split; [|exact (Hp rubi eq_refl)].
  destruct (Hc eq_refl) as (id & description & _ & ->). cbn [fst].
  apply lookup_insert_eq.
Defined.

(** C10 as stated fails: the first plan of the catalog costs 100 and
    the buyer never touches the duration choice, only clicks the free
    plan and then the paid plan again.  Continue persists "1dia", not
    "3dias", and the payable amount is 50, not the base price. *)
Lemma C10_counterexample :
  durationUntouched noDurationTouch
  /\ plans noDurationTouch = [rubi; gratis]
  /\ (0 < plan_price rubi)%Z
  /\ currentPlan noDurationTouch = Some rubi
  /\ selectedDuration noDurationTouch = "1dia"
  /\ fst (fst (handleContinue noDurationTouch ∅)) !! "selectedDuration"
     = Some "1dia"
  /\ payableAmount noDurationTouch = Some (inject_Z 50)
  /\ inject_Z 50 <> inject_Z (plan_price rubi).
Proof.
  split.
  - unfold noDurationTouch.
    repeat (apply untouched_step; [| | reflexivity]);
      [constructor | cbn; compute_done | vm_compute; tauto
       | vm_compute; tauto].
  - repeat split; try reflexivity. discriminate.
Qed.

(** *** Further properties of the selection *)

(** A state the effects leave alone. *)
Lemma runEffects_fixed st :
  freePinned st ->
  truthy (selectedPlan st) = true
  \/ plans st = []
  \/ (exists first rest, plans st = first :: rest
                         /\ selectedPlan st = Some (plan_id first)) ->
  runEffects st = st.
Proof.
  intros Hpin Hsel.
  destruct (truthy (selectedPlan st)) eqn:Ht.
  - unfold runEffects. rewrite (effectDefaultPlan_truthy st st Ht).
    unfold effectFreeDuration.
    destruct (currentPlan st) as [q|] eqn:Hq; [|reflexivity].
    destruct (plan_price q =? 0)%Z eqn:Hz; [|reflexivity].
    apply Z.eqb_eq in Hz. rewrite (Hpin q Hq Hz). reflexivity.
  - rewrite (runEffects_falsy st Ht).
    destruct Hsel as [Hs | [Hs | (first & rest & Hp & Hs)]].
    + discriminate.
    + by rewrite Hs.
    + rewrite Hp. destruct st as [ps sp d]. cbn in *. by subst.
Qed.

(** X4. The two passes of [settle] reach a fixed point of the effects: one
    more pass changes nothing, whatever the state the event left. *)
Theorem settle_fixed_point st : runEffects (settle st) = settle st.
Proof.
  apply runEffects_fixed; [apply settle_freePinned|].
  unfold settle.
  destruct (truthy (selectedPlan st)) eqn:Ht.
  - destruct (runEffects_truthy st Ht) as [Hs _].
    unfold sameSelectedPlan. rewrite bool_decide_eq_true_2 by done.
    left. by rewrite Hs.
  - rewrite (runEffects_falsy st Ht).
    destruct (plans st) as [|first rest] eqn:Hps.
    + unfold sameSelectedPlan. rewrite bool_decide_eq_true_2 by done.
      right. by left.
    + assert (forall s, plans s = first :: rest ->
                selectedPlan s = Some (plan_id first) ->
                plans (runEffects s) = first :: rest
                /\ selectedPlan (runEffects s) = Some (plan_id first))
        as Hkeep.
      { intros s Hp Hsel. split; [by rewrite runEffects_plans|].
        destruct (truthy (selectedPlan s)) eqn:Hts.
        - destruct (runEffects_truthy s Hts) as [-> _]. exact Hsel.
        - by rewrite runEffects_falsy, Hp. }
      right. right. exists first, rest.
      destruct (sameSelectedPlan st (setSelectedPlan (plan_id first) st)).
      * by split.
      * by apply Hkeep.
Qed.

(** X5. Loading the catalog into a page without a selection selects its
    first plan, and when that plan is free the same event already moves
    the duration to "1dia"; a paid first plan leaves the duration as it
    was. *)
Theorem catalog_selects_first_plan st first rest :
  truthy (selectedPlan st) = false ->
  plan_id first <> "" ->
  step (CatalogUpdate (first :: rest)) st
  = {| plans := first :: rest;
       selectedPlan := Some (plan_id first);
       selectedDuration :=
         if (plan_price first =? 0)%Z then "1dia" else selectedDuration st |}.
Proof.
  intros Hf Hne.
  assert (truthy (Some (plan_id first)) = true) as Ht
    by (by apply truthy_Some).
  assert (selectedPlan st <> Some (plan_id first)) as Hdiff
    by (intros H; rewrite H in Hf; congruence).
  cbn [step]. unfold settle.
  rewrite (runEffects_falsy (setPlans (first :: rest) st) Hf).
  cbn [plans setPlans]. unfold sameSelectedPlan.
  rewrite bool_decide_eq_false_2 by exact Hdiff.
  unfold runEffects.
  rewrite effectDefaultPlan_truthy by exact Ht.
  unfold effectFreeDuration.
  rewrite (currentPlan_truthy _ (plan_id first)) by done.
  cbn [plans selectedPlan selectedDuration setSelectedPlan setPlans
         findPlan List.find].
  rewrite String.eqb_refl.
  destruct (plan_price first =? 0)%Z; cbn [andb]; [|reflexivity].
  destruct (String.eqb (selectedDuration st) "1dia") eqn:E;
    cbn [negb]; [|reflexivity].
  apply String.eqb_eq in E. unfold setSelectedPlan. cbn. by rewrite E.
Qed.

Lemma catalog_selects_first_plan_witness :
  step (CatalogUpdate [gratis; rubi]) initial
  = {| plans := [gratis; rubi];
       selectedPlan := Some "p-free";
       selectedDuration := "1dia" |}.
Proof.
  apply (catalog_selects_first_plan initial gratis [rubi]).
  - reflexivity.
  - discriminate.
Defined.

Lemma concat_no_match {A} (f : Plan -> list A) id ps :
  (forall q, In q ps -> plan_id q <> id) ->
  concat (map (fun q => if String.eqb (plan_id q) id then f q else []) ps)
  = [].
Proof.
  induction ps as [|a ps IH]; [reflexivity|].
  intros H. cbn [map concat].
  assert (String.eqb (plan_id a) id = false) as ->
    by (apply String.eqb_neq, H; by left).
  apply IH. intros q Hq. apply H. by right.
Qed.

Lemma concat_one_match {A} (f : Plan -> list A) p ps :
  NoDup (map plan_id ps) -> In p ps ->
  concat (map (fun q => if String.eqb (plan_id q) (plan_id p)
                        then f q else []) ps)
  = f p.
Proof.
  induction ps as [|a ps IH]; [done|].
  intros Hnd Hin. cbn [map concat].
  pose proof Hnd as Hnd'. cbn [map] in Hnd'.
  apply NoDup_cons in Hnd' as [Hfresh Hnd'].
  destruct (String.eqb (plan_id a) (plan_id p)) eqn:E.
  - apply String.eqb_eq in E.
    assert (a = p) as ->
      by (apply (plan_id_unique (a :: ps)); [done | by left | done | done]).
    rewrite concat_no_match; [apply app_nil_r|].
    intros q Hq Heq. apply Hfresh. rewrite <- Heq.
    apply list_elem_of_In, in_map, Hq.
  - destruct Hin as [-> | Hin]; [by rewrite String.eqb_refl in E|].
    cbn [app]. by apply IH.
Qed.

(** X6. The radio group shows the durations of the current plan and nothing
    else, and the selected duration is always one of the items shown:
    all five for a paid plan, "1dia" alone for a free one. *)
Theorem offered_durations_of_current_plan st p :
  reachable st ->
  currentPlan st = Some p ->
  offeredDurations st = keys (getAvailableDurations p)
  /\ In (selectedDuration st) (offeredDurations st).
Proof.
  intros Hr Hp.
  destruct (reachable_invariant st Hr) as (Hnd & Hdur & Hpin).
  assert (offeredDurations st = keys (getAvailableDurations p)) as Hoff.
  { unfold offeredDurations. unfold currentPlan in Hp.
    destruct (selectedPlan st) as [id|]; [|done].
    destruct (truthy (Some id)); [|done].
    apply findPlan_Some in Hp as [Hin <-].
    by apply (concat_one_match (fun q => keys (getAvailableDurations q))). }
  split; [exact Hoff|]. rewrite Hoff.
  destruct (Z.eq_dec (plan_price p) 0%Z) as [Hfree | Hpaid].
  - rewrite (available_free p Hfree), (Hpin p Hp Hfree). by left.
  - by rewrite (available_paid p Hpaid).
Qed.

Lemma offered_durations_of_current_plan_witness :
  offeredDurations freeClicked = keys (getAvailableDurations gratis)
  /\ In (selectedDuration freeClicked) (offeredDurations freeClicked).
Proof.
  apply (offered_durations_of_current_plan freeClicked gratis).
  - apply reachable_step; [exact paidThreeMonths_reachable|].
    vm_compute. tauto.
  - reflexivity.
Defined.

(** X7. A selection that outlives its plan: when the selected id is no
    longer in the catalog the page offers no duration and shows no
    amount, yet continue still stores the stale id and the duration,
    announces "undefined por ..." and navigates on. *)
Theorem continue_with_stale_selection st id
    (localStorage : gmap string string) :
  reachable st ->
  selectedPlan st = Some id ->
  id <> "" ->
  findPlan (plans st) id = None ->
  offeredDurations st = []
  /\ payableAmount st = None
  /\ exists d,
       property (selectedDuration st) durationOptions = Some d
       /\ handleContinue st localStorage
          = (<["selectedDuration" := selectedDuration st]>
               (<["selectedPlan" := id]> localStorage),
             [ Toast "Plano selecionado" ("undefined por " ++ label d);
               Navigate "/verificacao" ],
             Returned).
Proof.
  intros Hr Hsel Hne Hnone.
  destruct (reachable_invariant st Hr) as (_ & Hdur & _).
  assert (truthy (Some id) = true) as Ht by (by apply truthy_Some).
  split; [|split].
  - unfold offeredDurations. rewrite Hsel, Ht.
    apply concat_no_match. intros q Hq Heq.
    apply (List.find_none _ _ Hnone) in Hq.
    apply String.eqb_neq in Hq. contradiction.
  - unfold payableAmount.
    by rewrite (currentPlan_truthy st id Hsel Hne), Hnone.
  - destruct (property_known _ _ Hdur) as [d Hd]. exists d.
    split; [exact Hd|].
    unfold handleContinue. by rewrite Hsel, Ht, Hd, Hnone.
Qed.

Lemma staleSelection_reachable : reachable staleSelection.
Proof.
  unfold staleSelection.
  apply reachable_step; [apply reachable_step; [constructor|] |];
    cbn; compute_done.
Qed.

Lemma continue_with_stale_selection_witness :
  offeredDurations staleSelection = []
  /\ payableAmount staleSelection = None
  /\ exists d,
       property (selectedDuration staleSelection) durationOptions = Some d
       /\ handleContinue staleSelection ∅
          = (<["selectedDuration" := selectedDuration staleSelection]>
               (<["selectedPlan" := "p-rubi"]> ∅),
             [ Toast "Plano selecionado" ("undefined por " ++ label d);
               Navigate "/verificacao" ],
             Returned).
Proof.
  apply (continue_with_stale_selection staleSelection "p-rubi" ∅).
  - exact staleSelection_reachable.
  - reflexivity.
  - discriminate.
  - reflexivity.
Defined.



(** With a selection in place, settling is the second effect alone. *)
Lemma settle_truthy st :
  truthy (selectedPlan st) = true -> settle st = effectFreeDuration st st.
Proof.
  intros Ht. unfold settle, runEffects.
  rewrite (effectDefaultPlan_truthy st st Ht).
  unfold sameSelectedPlan.
  rewrite bool_decide_eq_true_2; [reflexivity|].
  by rewrite effectFreeDuration_selectedPlan.
Qed.

(** X9. A catalog update never moves an existing selection, not even when
    the selected plan has left the catalog; it changes the duration only
    to pin it to "1dia" when the selected plan is now free. *)
Theorem catalog_update_keeps_selection st ps :
  truthy (selectedPlan st) = true ->
  let st' := step (CatalogUpdate ps) st in
  plans st' = ps
  /\ selectedPlan st' = selectedPlan st
  /\ selectedDuration st'
     = match currentPlan (setPlans ps st) with
       | Some p => if (plan_price p =? 0)%Z then "1dia"
                   else selectedDuration st
       | None => selectedDuration st
       end.
Proof.
  intros Ht st'. subst st'. cbn [step].
  rewrite (settle_truthy (setPlans ps st) Ht).
  rewrite effectFreeDuration_plans, effectFreeDuration_selectedPlan.
  split; [reflexivity|]. split; [reflexivity|].
  unfold effectFreeDuration.
  destruct (currentPlan (setPlans ps st)) as [p|]; [|reflexivity].
  destruct (plan_price p =? 0)%Z; cbn [andb]; [|reflexivity].
  cbn [selectedDuration setPlans].
  destruct (String.eqb (selectedDuration st) "1dia") eqn:E;
    cbn [negb]; [|reflexivity].
  by apply String.eqb_eq in E.
Qed.

Lemma catalog_update_keeps_selection_witness :
  let st' := step (CatalogUpdate [mkPlan "p-rubi" "Rubi" 0]) paidThreeMonths in
  plans st' = [mkPlan "p-rubi" "Rubi" 0]
  /\ selectedPlan st' = selectedPlan paidThreeMonths
  /\ selectedDuration st'
     = match currentPlan (setPlans [mkPlan "p-rubi" "Rubi" 0] paidThreeMonths)
       with
       | Some p => if (plan_price p =? 0)%Z then "1dia"
                   else selectedDuration paidThreeMonths
       | None => selectedDuration paidThreeMonths
       end.
Proof.
  apply (catalog_update_keeps_selection paidThreeMonths
           [mkPlan "p-rubi" "Rubi" 0]).
  reflexivity.
Defined.

(** X10. Clicking a paid plan selects it and leaves the duration alone.  So
    the duration a free plan forced to "1dia" is not restored when the
    buyer goes back to a paid plan. *)
Theorem click_paid_plan_keeps_duration st id p :
  id <> "" ->
  findPlan (plans st) id = Some p ->
  plan_price p <> 0%Z ->
  let st' := step (ClickPlan id) st in
  selectedPlan st' = Some id
  /\ plans st' = plans st
  /\ selectedDuration st' = selectedDuration st.
Proof.
  intros Hne Hfind Hpaid st'. subst st'. cbn [step].
  destruct (bool_decide (selectedPlan st = Some id)) eqn:E.
  - apply bool_decide_eq_true_1 in E. by rewrite E.
  - assert (truthy (selectedPlan (setSelectedPlan id st)) = true) as Ht
      by (by apply truthy_Some).
    rewrite (settle_truthy _ Ht). unfold effectFreeDuration.
    rewrite (currentPlan_truthy (setSelectedPlan id st) id eq_refl Hne).
    cbn [plans setSelectedPlan]. rewrite Hfind.
    apply Z.eqb_neq in Hpaid. rewrite Hpaid. by cbn.
Qed.

Lemma click_paid_plan_keeps_duration_witness :
  let st' := step (ClickPlan "p-rubi") freeClicked in
  selectedDuration paidThreeMonths = "3meses"
  /\ selectedPlan st' = Some "p-rubi"
  /\ plans st' = plans freeClicked
  /\ selectedDuration st' = "1dia".
Proof.
  split; [reflexivity|].
  apply (click_paid_plan_keeps_duration freeClicked "p-rubi" rubi).
  - discriminate.
  - reflexivity.
  - discriminate.
Defined.

End Selection.
